(** * NewsGuard: the dashboard client and the enrichment pipeline

    A shallow embedding of the NewsGuard front end (API client, [useFetch]
    hook, [App] event handlers, [Dashboard] aggregation, [ArticleCard]
    rendering) together with a model of the enrichment pipeline that the
    design document describes, and the properties stated about them.

    Part I holds the definitions, Part II the theorems about the stated
    properties, Part III further properties of the front end. *)

From Stdlib Require Import ZArith Lia.
From stdpp Require Import base strings pretty list gmap.

Set Warnings "-register-all".
Open Scope string_scope.
Open Scope list_scope.
Open Scope nat_scope.

(* ===================================================================== *)
(** * Part I. Definitions                                                 *)
(* ===================================================================== *)

(** ** JavaScript notions shared by the front-end modules *)

Module Js.

(** How a statement, or an awaited promise, finishes: normally with a
    value (the promise resolves) or abruptly with a thrown value (the
    promise rejects). *)
Inductive completion (E A : Type) : Type :=
| Normal (a : A)
| Throw (e : E).
Arguments Normal {E A} a.
Arguments Throw {E A} e.

Definition bind {E A B} (c : completion E A) (k : A → completion E B)
  : completion E B :=
  match c with
  | Normal a => k a
  | Throw e => Throw e
  end.

(** [try { body } catch { handler }]: every abrupt completion of the
    body, whatever was thrown, enters the handler. *)
Definition try_catch {E A} (body : completion E A)
    (handler : E → completion E A) : completion E A :=
  match body with
  | Normal a => Normal a
  | Throw e => handler e
  end.

(** Error objects: the constructor name and the [message] property. *)
Record Exn : Type := mkExn { ename : string; message : string }.

Definition Error (msg : string) : Exn := mkExn "Error" msg.
Definition TypeError (msg : string) : Exn := mkExn "TypeError" msg.
Definition SyntaxError (msg : string) : Exn := mkExn "SyntaxError" msg.

(** Values produced by [JSON.parse].  Numbers are kept abstract: only
    their truthiness and their printing are ever consulted. *)
Inductive Json (number : Type) : Type :=
| JNull
| JBool (b : bool)
| JNum (n : number)
| JStr (s : string)
| JArr (items : list (Json number))
| JObj (fields : list (string * Json number)).
Arguments JNull {number}.
Arguments JBool {number} b.
Arguments JNum {number} n.
Arguments JStr {number} s.
Arguments JArr {number} items.
Arguments JObj {number} fields.

(** An argument passed to an API operation, as far as a template literal
    can tell: [undefined], a number or a string. *)
Inductive Arg : Type :=
| AUndefined
| ANum (z : Z)
| AStr (s : string).

(** A default parameter [x = d] replaces [undefined] only. *)
Definition default_param (d : Arg) (a : Arg) : Arg :=
  match a with
  | AUndefined => d
  | _ => a
  end.

(** [`${a}`] *)
Definition template (a : Arg) : string :=
  match a with
  | AUndefined => "undefined"
  | ANum z => pretty z
  | AStr s => s
  end.

(** [s || d] on an optional string: [null], [undefined] and the empty
    string are falsy. *)
Definition or_string (s : option string) (d : string) : string :=
  match s with
  | Some (String c r) => String c r
  | _ => d
  end.

End Js.

Import Js.

(** ** The API client ([lib/api]) *)

Module Api.

Record Request : Type := mkRequest {
  url : string;
  method : string;
  req_headers : list (string * string)
}.

(** [res.ok] is derived from the status, as the Fetch standard has it. *)
Record Response : Type := mkResponse {
  status : N;
  body : string
}.

Definition ok (res : Response) : bool :=
  (200 <=? status res)%N && (status res <=? 299)%N.

(** The [opts] argument of [fetchJson]. *)
Record Opts : Type := mkOpts {
  opt_method : option string;
  opt_headers : option (list (string * string))
}.

Definition no_opts : Opts := mkOpts None None.
Definition post_opts : Opts := mkOpts (Some "POST") None.

(** The operations of the default export, in source order. *)
Inductive Op : Type :=
| fetchArticles
| getArticle
| enrichArticle
| enrichAll
| fetchLatest
| enrichAsync
| metrics.

Definition all_ops : list Op :=
  [fetchArticles; getArticle; enrichArticle; enrichAll; fetchLatest;
   enrichAsync; metrics].

Section Client.

(** The build-time environment and the browser built-ins the module
    relies on. *)
Context {number : Type}.
Variable VITE_API_URL : option string.
Variable VITE_API_KEY : option string.
Variable encodeURIComponent : string → string.
Variable JSON_parse : string → option (Json number).
Variable number_truthy : number → bool.
Variable number_to_string : number → string.
Variable fetch : Request → completion Exn Response.

Definition API_URL : string := or_string VITE_API_URL "http://127.0.0.1:8000".
Definition API_KEY : string := or_string VITE_API_KEY "test123".

Definition headers : list (string * string) :=
  [("x-api-key", API_KEY);
   ("Content-Type", "application/json");
   ("Accept", "application/json")].

(** Object spread [{...a, ...b}]: keys of [b] override those of [a];
    a key keeps the position of its first occurrence. *)
Fixpoint spread_set (k v : string) (o : list (string * string))
  : list (string * string) :=
  match o with
  | [] => [(k, v)]
  | (k', v') :: o' =>
      if String.eqb k k' then (k, v) :: o' else (k', v') :: spread_set k v o'
  end.

Definition spread (a b : list (string * string)) : list (string * string) :=
  fold_left (λ o kv, spread_set kv.1 kv.2 o) b a.

(** The request [fetch] is called with: [{...opts, headers: {...}}].
    A request without a method is a GET. *)
Definition request (path : string) (opts : Opts) : Request :=
  {| url := API_URL +:+ path;
     method := default "GET" (opt_method opts);
     req_headers := spread headers (default [] (opt_headers opts)) |}.

(** Truthiness of a parsed JSON value. *)
Definition truthy (j : Json number) : bool :=
  match j with
  | JNull => false
  | JBool b => b
  | JNum n => number_truthy n
  | JStr s => negb (String.eqb s "")
  | JArr _ | JObj _ => true
  end.

(** [String(v)], the conversion [new Error(v)] applies to its
    argument. *)
Definition join_comma (parts : list string) : string :=
  match parts with
  | [] => ""
  | p :: ps => fold_left (λ acc q, acc +:+ "," +:+ q) ps p
  end.

Fixpoint to_string (j : Json number) : string :=
  match j with
  | JNull => "null"
  | JBool true => "true"
  | JBool false => "false"
  | JNum n => number_to_string n
  | JStr s => s
  | JArr items =>
      join_comma
        (List.map (λ i, match i with JNull => "" | _ => to_string i end) items)
  | JObj _ => "[object Object]"
  end.

(** Own property lookup in a parsed object; a later duplicate key
    overrides an earlier one. *)
Fixpoint own_prop (fields : list (string * Json number)) (k : string)
  : option (Json number) :=
  match fields with
  | [] => None
  | (k', v) :: rest =>
      match own_prop rest k with
      | Some w => Some w
      | None => if String.eqb k k' then Some v else None
      end
  end.

(** [json.k] for [k] one of [detail], [error]: reading a property of
    [null] throws, an absent property reads as [undefined] ([None]). *)
Definition get_prop (j : Json number) (k : string)
  : completion Exn (option (Json number)) :=
  match j with
  | JNull => Throw (TypeError ("Cannot read properties of null (reading '" +:+ k +:+ "')"))
  | JObj fields => Normal (own_prop fields k)
  | _ => Normal None
  end.

Definition truthy_opt (v : option (Json number)) : bool :=
  match v with
  | Some j => truthy j
  | None => false
  end.

Definition to_string_opt (v : option (Json number)) : string :=
  match v with
  | Some j => to_string j
  | None => "undefined"
  end.

(** [JSON.parse(text)] as a completion. *)
Definition parse (text : string) : completion Exn (Json number) :=
  match JSON_parse text with
  | Some j => Normal j
  | None => Throw (SyntaxError "Unexpected token")
  end.

(** The body of the [try] block of [fetchJson]:
    [const json = JSON.parse(text);
     throw new Error(json.detail || json.error || text);] *)
Definition try_body (text : string) : completion Exn (Json number) :=
  bind (parse text) (λ json,
  bind (get_prop json "detail") (λ detail,
    if truthy_opt detail then Throw (Error (to_string_opt detail))
    else
      bind (get_prop json "error") (λ error,
        if truthy_opt error then Throw (Error (to_string_opt error))
        else Throw (Error text)))).

(** [text || `HTTP ${res.status}`] *)
Definition fallback_message (res : Response) : string :=
  match body res with
  | "" => "HTTP " +:+ pretty (status res)
  | text => text
  end.

(** What [fetchJson] does with a response it received. *)
Definition handle_response (res : Response) : completion Exn (Json number) :=
  if negb (ok res) then
    let text := body res in
    try_catch (try_body text) (λ _, Throw (Error (fallback_message res)))
  else parse (body res).

Definition fetchJson (path : string) (opts : Opts) : completion Exn (Json number) :=
  bind (fetch (request path opts)) handle_response.

(** The path and options each operation hands to [fetchJson]. *)
Definition path_of (op : Op) (a : Arg) : string :=
  match op with
  | fetchArticles => "/news?limit=" +:+ template (default_param (ANum 20) a)
  | getArticle => "/news/" +:+ template a
  | enrichArticle => "/news/enrich/" +:+ template a
  | enrichAll => "/news/enrich_all?limit=" +:+ template (default_param (ANum 5) a)
  | fetchLatest => "/news/fetch?q=" +:+ encodeURIComponent (template a)
  | enrichAsync => "/news/enrich_async?limit=" +:+ template (default_param (ANum 5) a)
  | metrics => "/news/metrics"
  end.

Definition opts_of (op : Op) : Opts :=
  match op with
  | enrichArticle | enrichAll | enrichAsync => post_opts
  | fetchArticles | getArticle | fetchLatest | metrics => no_opts
  end.

Definition request_of (op : Op) (a : Arg) : Request :=
  request (path_of op a) (opts_of op).

Definition call (op : Op) (a : Arg) : completion Exn (Json number) :=
  fetchJson (path_of op a) (opts_of op).

(** The four contract points of the dashboard-facing surface, mounted
    under the [/news] prefix the client uses for every route. *)
Inductive ContractPoint : Type :=
| PostEnrich
| PostEnrichAsync
| GetJob
| GetMetrics.

Definition all_contract_points : list ContractPoint :=
  [PostEnrich; PostEnrichAsync; GetJob; GetMetrics].

(** [matches c r]: the request [r] is addressed to contract point [c],
    for some value [x] of the point's parameter. *)
Definition matches (c : ContractPoint) (r : Request) : Prop :=
  match c with
  | PostEnrich =>
      method r = "POST" ∧ ∃ x, url r = API_URL +:+ "/news/enrich/" +:+ x
  | PostEnrichAsync =>
      method r = "POST" ∧ ∃ x, url r = API_URL +:+ "/news/enrich_async?limit=" +:+ x
  | GetJob =>
      method r = "GET" ∧ ∃ x, url r = API_URL +:+ "/news/job/" +:+ x
  | GetMetrics =>
      method r = "GET" ∧ url r = API_URL +:+ "/news/metrics"
  end.

(** An operation performs a contract point when every call of it is a
    request to that point. *)
Definition performs (op : Op) (c : ContractPoint) : Prop :=
  ∀ a : Arg, matches c (request_of op a).

End Client.

End Api.

(** ** The [useFetch] hook ([hooks/useFetch.js]) *)

Module UseFetch.

Section Hook.

(** [D]: what the wrapped function resolves to; [E]: what it may throw. *)
Context {D E : Type}.

(** The three [useState] cells; [None] is [null]. *)
Record State : Type := mkState {
  data : option D;
  loading : bool;
  error : option E
}.

Definition initial (immediate : bool) : State := mkState None immediate None.

(** Statements of the hook body: they update the cells and complete
    normally or abruptly. *)
Definition M (A : Type) : Type := State → State * completion E A.

Definition ret {A} (a : A) : M A := λ st, (st, Normal a).
Definition throw {A} (e : E) : M A := λ st, (st, Throw e).

Definition seq {A B} (m : M A) (k : A → M B) : M B :=
  λ st, match m st with
        | (st', Normal a) => k a st'
        | (st', Throw e) => (st', Throw e)
        end.

Definition setData (d : D) : M unit :=
  λ st, (mkState (Some d) (loading st) (error st), Normal tt).
Definition setLoading (b : bool) : M unit :=
  λ st, (mkState (data st) b (error st), Normal tt).
Definition setError (e : option E) : M unit :=
  λ st, (mkState (data st) (loading st) e, Normal tt).

(** [if (c) stmt] *)
Definition when (c : bool) (m : M unit) : M unit :=
  if c then m else ret tt.

(** [await p] for a promise that settles as [p]. *)
Definition await {A} (p : completion E A) : M A := λ st, (st, p).

Definition try_catch {A} (body : M A) (handler : E → M A) : M A :=
  λ st, match body st with
        | (st', Normal a) => (st', Normal a)
        | (st', Throw e) => handler e st'
        end.

(** [try { body } finally { fin }]: [fin] runs after every completion
    of [body]; the completion of [body] stands unless [fin] itself
    completes abruptly. *)
Definition try_finally {A} (body : M A) (fin : M unit) : M A :=
  λ st, match body st with
        | (st', c) =>
            match fin st' with
            | (st'', Normal _) => (st'', c)
            | (st'', Throw e) => (st'', Throw e)
            end
        end.

(** [call(...args)].  [settled] is how [fn(...args)] settles and
    [mounted] the value of [mounted.current] once the await resumes
    (everything after the await runs without a further suspension,
    so the three reads of the ref see one value). *)
Definition call (settled : completion E D) (mounted : bool) : M D :=
  seq (setLoading true) (λ _,
  seq (setError None) (λ _,
    try_finally
      (try_catch
         (seq (await settled) (λ res,
          seq (when mounted (setData res)) (λ _,
          ret res)))
         (λ e,
          seq (when mounted (setError (Some e))) (λ _,
          throw e)))
      (when mounted (setLoading false)))).

End Hook.

Arguments State : clear implicits.

End UseFetch.

(** ** The [App] component ([App.jsx]): handlers and the polling effect *)

Module App.

(** Period of the refresh interval, in milliseconds. *)
Definition POLL_MS : N := 20000.

Section Component.

Context {number : Type}.
#[local] Abbreviation json := (Json number).

(** The back end as seen through [lib/api]: how the [n]-th call the
    page makes settles. *)
Variable respond : nat → Api.Op → Arg → completion Exn json.

Record State : Type := mkState {
  articles : UseFetch.State json Exn;
  selected : option json;
  metrics : json;
  polling : bool;
  (** due time of the interval registered by the polling effect *)
  interval : option N;
  mounted : bool;
  clock : N;
  (** calls made through [api], oldest first *)
  log : list (Api.Op * Arg);
  (** messages shown with [alert], oldest first *)
  alerts : list string;
  (** values passed to [console.error] *)
  console : list Exn
}.

Definition set_articles (h : UseFetch.State json Exn) (st : State) : State :=
  mkState h (selected st) (metrics st) (polling st) (interval st)
          (mounted st) (clock st) (log st) (alerts st) (console st).
Definition set_metrics (m : json) (st : State) : State :=
  mkState (articles st) (selected st) m (polling st) (interval st)
          (mounted st) (clock st) (log st) (alerts st) (console st).
Definition set_polling (b : bool) (st : State) : State :=
  mkState (articles st) (selected st) (metrics st) b (interval st)
          (mounted st) (clock st) (log st) (alerts st) (console st).
Definition set_interval (t : option N) (st : State) : State :=
  mkState (articles st) (selected st) (metrics st) (polling st) t
          (mounted st) (clock st) (log st) (alerts st) (console st).
Definition set_mounted (b : bool) (st : State) : State :=
  mkState (articles st) (selected st) (metrics st) (polling st) (interval st)
          b (clock st) (log st) (alerts st) (console st).
Definition set_clock (t : N) (st : State) : State :=
  mkState (articles st) (selected st) (metrics st) (polling st) (interval st)
          (mounted st) t (log st) (alerts st) (console st).
Definition alert (msg : string) (st : State) : State :=
  mkState (articles st) (selected st) (metrics st) (polling st) (interval st)
          (mounted st) (clock st) (log st) (alerts st ++ [msg]) (console st).
Definition console_error (e : Exn) (st : State) : State :=
  mkState (articles st) (selected st) (metrics st) (polling st) (interval st)
          (mounted st) (clock st) (log st) (alerts st) (console st ++ [e]).

(** [await api.op(a)] *)
Definition api (op : Api.Op) (a : Arg) (st : State)
  : completion Exn json * State :=
  (respond (length (log st)) op a,
   mkState (articles st) (selected st) (metrics st) (polling st) (interval st)
           (mounted st) (clock st) (log st ++ [(op, a)]) (alerts st)
           (console st)).

(** [loadMetrics]: a rejection is logged and swallowed. *)
Definition loadMetrics (st : State) : State :=
  match api Api.metrics AUndefined st with
  | (Normal m, st1) => set_metrics m st1
  | (Throw e, st1) => console_error e st1
  end.

(** [reloadArticles], the [call] of [useFetch(() => api.fetchArticles(50))]. *)
Definition reloadArticles (st : State) : State * completion Exn json :=
  match api Api.fetchArticles (ANum 50) st with
  | (r, st1) =>
      match UseFetch.call r (mounted st1) (articles st1) with
      | (h, c) => (set_articles h st1, c)
      end
  end.

Definition handleEnrich (id : Arg) (st : State) : State :=
  match api Api.enrichArticle id st with
  | (Throw e, st1) => alert ("Enrich failed: " +:+ message e) st1
  | (Normal _, st1) =>
      match reloadArticles st1 with
      | (st2, Throw e) => alert ("Enrich failed: " +:+ message e) st2
      | (st2, Normal _) => loadMetrics st2
      end
  end.

(** The effect with dependency [[polling]]: an initial metrics load,
    and an interval when polling is enabled. *)
Definition polling_effect (st : State) : State :=
  let st1 := loadMetrics st in
  if polling st1 then set_interval (Some (clock st1 + POLL_MS)%N) st1
  else set_interval None st1.

(** [setPolling(b)]: a changed value re-renders; the previous effect's
    cleanup clears its interval and the effect runs again. *)
Definition setPolling (b : bool) (st : State) : State :=
  if bool_decide (polling st = b) then st
  else if mounted st then polling_effect (set_interval None (set_polling b st))
  else set_polling b st.

Definition handleEnrichAsync (limit : Arg) (st : State) : State :=
  match api Api.enrichAsync (default_param (ANum 5) limit) st with
  | (Normal _, st1) => setPolling true st1
  | (Throw e, st1) => alert ("Failed to queue enrichment: " +:+ message e) st1
  end.

(** The interval callback, run at its due time. *)
Definition tick (st : State) : State :=
  match interval st with
  | None => st
  | Some due =>
      let st1 := set_interval (Some (due + POLL_MS)%N) (set_clock due st) in
      loadMetrics (reloadArticles st1).1
  end.

Fixpoint ticks (n : nat) (st : State) : State :=
  match n with
  | O => st
  | S m => ticks m (tick st)
  end.

(** How many times the interval fires up to and including time [t]. *)
Definition due_count (t : N) (st : State) : N :=
  match interval st with
  | Some due => if (due <=? t)%N then ((t - due) / POLL_MS + 1)%N else 0%N
  | None => 0%N
  end.

(** [dt] milliseconds pass with no user input. *)
Definition elapse (dt : N) (st : State) : State :=
  let t := (clock st + dt)%N in
  set_clock t (ticks (N.to_nat (due_count t st)) st).

Definition initial_metrics : json :=
  JObj [("bias", JArr []); ("sentiment", JArr [])].

Definition init : State :=
  mkState (UseFetch.initial true) None initial_metrics false None true 0%N [] [] [].

(** First render: the hook's effect calls [call()], then the polling
    effect runs. *)
Definition mount : State := polling_effect (reloadArticles init).1.

Definition unmount (st : State) : State :=
  set_interval None (set_mounted false st).

Inductive Event : Type :=
| ClickRefresh
| ClickAnalyze (id : Arg)
| ClickRunEnrichAsync
| Elapse (dt : N).

Definition handle (ev : Event) (st : State) : State :=
  match ev with
  | ClickRefresh => loadMetrics (reloadArticles st).1
  | ClickAnalyze id => handleEnrich id st
  | ClickRunEnrichAsync => handleEnrichAsync (ANum 10) st
  | Elapse dt => elapse dt st
  end.

Definition run (evs : list Event) : State := fold_left (λ st ev, handle ev st) evs mount.

(** The calls a step added to the log. *)
Definition issued (before after : State) : list (Api.Op * Arg) :=
  drop (length (log before)) (log after).

(** What the data-loading helpers leave alone. *)
Definition same_schedule (st st' : State) : Prop :=
  polling st' = polling st
  ∧ interval st' = interval st
  ∧ mounted st' = mounted st
  ∧ clock st' = clock st.

(** The calls of one firing of the interval callback. *)
Definition round : list (Api.Op * Arg) :=
  [(Api.fetchArticles, ANum 50); (Api.metrics, AUndefined)].

(** While mounted, the interval exists exactly when polling is enabled,
    and is due within one period. *)
Definition scheduled (st : State) : Prop :=
  mounted st = true
  ∧ match interval st with
    | Some due => polling st = true ∧ (clock st < due ≤ clock st + POLL_MS)%N
    | None => polling st = false
    end.

End Component.

End App.

(** ** The [Dashboard] aggregation and the [ArticleCard] view
       ([components/Dashboard.jsx]) *)

Module Dashboard.

(** The article fields the components read; [None] is [null] or an
    absent property. *)
Record Article : Type := mkArticle {
  id : Arg;
  title : string;
  raw_text : option string;
  summary : option string;
  sentiment : option string;
  bias : option string
}.

(** What a property of the counting object can hold. *)
Inductive Value : Type :=
| VNum (n : N)
| VStr (s : string).

(** ASCII case mapping, the instance of [toLowerCase] and [toUpperCase]
    used in examples. *)
Definition lower_ascii (c : Ascii.ascii) : Ascii.ascii :=
  let n := Ascii.N_of_ascii c in
  if (65 <=? n)%N && (n <=? 90)%N then Ascii.ascii_of_N (n + 32) else c.

Definition upper_ascii (c : Ascii.ascii) : Ascii.ascii :=
  let n := Ascii.N_of_ascii c in
  if (97 <=? n)%N && (n <=? 122)%N then Ascii.ascii_of_N (n - 32) else c.

Fixpoint map_string (f : Ascii.ascii → Ascii.ascii) (s : string) : string :=
  match s with
  | EmptyString => EmptyString
  | String c r => String (f c) (map_string f r)
  end.

Definition asciiLowerCase : string → string := map_string lower_ascii.
Definition asciiUpperCase : string → string := map_string upper_ascii.

(** The function-valued properties every object literal inherits from
    [Object.prototype]. *)
Definition prototype_methods : list string :=
  ["__defineGetter__"; "__defineSetter__"; "hasOwnProperty";
   "__lookupGetter__"; "__lookupSetter__"; "isPrototypeOf";
   "propertyIsEnumerable"; "toString"; "valueOf"; "toLocaleString"].

(** [String(({})[k])] for an inherited property [k]: the constructor is
    the function [Object], [__proto__] reads as the prototype object. *)
Definition inherited (k : string) : option string :=
  if String.eqb k "constructor" then Some "function Object() { [native code] }"
  else if String.eqb k "__proto__" then Some "[object Object]"
  else if bool_decide (k ∈ prototype_methods)
       then Some ("function " +:+ k +:+ "() { [native code] }")
       else None.

(** [(map[k] || 0) + 1] on an object literal whose own properties are
    [m]: an own number is incremented, an own or inherited truthy
    non-number is concatenated with ["1"]. *)
Definition incremented (m : gmap string Value) (k : string) : Value :=
  match m !! k with
  | Some (VNum n) => VNum (n + 1)
  | Some (VStr "") => VNum 1
  | Some (VStr s) => VStr (s +:+ "1")
  | None =>
      match inherited k with
      | Some src => VStr (src +:+ "1")
      | None => VNum 1
      end
  end.

(** [map[k] = v] for a primitive [v]: the [__proto__] setter ignores it,
    any other key becomes an own property. *)
Definition assign (m : gmap string Value) (k : string) (v : Value)
  : gmap string Value :=
  if String.eqb k "__proto__" then m else <[k := v]> m.

Record Entry : Type := mkEntry { name : string; value : Value }.

(** [Object.entries(map).map(([name, value]) => ({ name, value }))].
    The order of the entries is not modelled. *)
Definition entries (m : gmap string Value) : list Entry :=
  (λ kv, mkEntry kv.1 kv.2) <$> map_to_list m.

Section Counts.

Variable toLowerCase : string → string.
Variable toUpperCase : string → string.

(** [(a.bias || "unknown").toLowerCase()] *)
Definition bias_key (a : Article) : string :=
  toLowerCase (or_string (bias a) "unknown").

(** [(a.sentiment || "UNKNOWN").toUpperCase()] *)
Definition sentiment_key (a : Article) : string :=
  toUpperCase (or_string (sentiment a) "UNKNOWN").

(** The [for (const a of articles)] loop over a fresh [{}]. *)
Definition tally (key : Article → string) (articles : list Article)
  : gmap string Value :=
  fold_left (λ m a, let k := key a in assign m k (incremented m k)) articles ∅.

Definition biasMap (articles : list Article) : gmap string Value :=
  tally bias_key articles.
Definition sentimentMap (articles : list Article) : gmap string Value :=
  tally sentiment_key articles.

Definition biasCounts (articles : list Article) : list Entry :=
  entries (biasMap articles).
Definition sentimentCounts (articles : list Article) : list Entry :=
  entries (sentimentMap articles).

(** The keys as the metrics description words them: only a missing
    field falls back to the unknown label. *)
Definition described_bias_key (a : Article) : string :=
  toLowerCase (default "unknown" (bias a)).
Definition described_sentiment_key (a : Article) : string :=
  toUpperCase (default "UNKNOWN" (sentiment a)).

End Counts.

(** Number of articles filed under [label] by [key]. *)
Definition occurrences (key : Article → string) (label : string)
    (articles : list Article) : N :=
  N.of_nat (length (filter (λ a, key a = label) articles)).

(** A count as the object holds it: a label nobody has is no property. *)
Definition count_value (n : N) : option Value :=
  if decide (n = 0%N) then None else Some (VNum n).

(** *** [ArticleCard] *)

(** One of the two annotation slots under the excerpt: a bordered badge
    or a muted placeholder. *)
Inductive Slot : Type :=
| Badge (text : string)
| Muted (text : string).

Record Card : Type := mkCard {
  heading : string;
  excerpt : string;
  sentiment_slot : Slot;
  bias_slot : Slot
}.

Section Card.

(** [String.prototype.slice]: [slice s from to] is [s.slice(from, to)],
    which counts UTF-16 code units. *)
Variable slice : string → nat → nat → string.

(** [article.summary ?? (article.raw_text ? article.raw_text.slice(0, 200) + "…" : "No text available")] *)
Definition excerpt_of (a : Article) : string :=
  match summary a with
  | Some s => s
  | None =>
      match raw_text a with
      | Some (String c r) => slice (String c r) 0 200 +:+ "…"
      | _ => "No text available"
      end
  end.

(** [field ? badge(field) : <span>label: —</span>] *)
Definition slot_of (label : string) (field : option string) : Slot :=
  match field with
  | Some (String c r) => Badge (String c r)
  | _ => Muted (label +:+ ": —")
  end.

Definition ArticleCard (a : Article) : Card :=
  {| heading := title a;
     excerpt := excerpt_of a;
     sentiment_slot := slot_of "sentiment" (sentiment a);
     bias_slot := slot_of "bias" (bias a) |}.

End Card.

(** The annotation fields a card gives a placeholder for. *)
Definition flagged_missing (c : Card) : list string :=
  match sentiment_slot c with Badge _ => [] | Muted _ => ["sentiment"] end ++
  match bias_slot c with Badge _ => [] | Muted _ => ["bias"] end.

End Dashboard.

(** ** The enrichment pipeline

    The repository's sources hold the dashboard only; the service the
    dashboard talks to is described by the design document.  The
    definitions of this module follow that description. *)

Module Pipeline.

(** Modelled from the spec: the task kinds of a CacheKey.  The
    Fingerprint Cache, the Inference Client, the Enrichment Engine and
    the Job Dispatcher have no source file. *)
Inductive TaskKind : Type :=
| Summarize
| Sentiment
| Bias.

#[global] Instance TaskKind_eq_dec : EqDecision TaskKind.
Proof. solve_decision. Defined.

#[global] Instance TaskKind_countable : Countable TaskKind.
Proof.
  refine (inj_countable'
            (λ k, match k with Summarize => 0 | Sentiment => 1 | Bias => 2 end)
            (λ n, match n with 0 => Summarize | 1 => Sentiment | _ => Bias end) _).
  by intros [].
Defined.

Definition task_kinds : list TaskKind := [Summarize; Sentiment; Bias].

(** Modelled from the spec: the typed failures of the Inference Client
    (error taxonomy of the error-handling design). *)
Inductive InferError : Type :=
| RateLimited
| UpstreamUnavailable
| InvalidResponse.

(** *** Fingerprint Cache *)

(** Modelled from the spec: CacheKey, the triple of task kind, content
    fingerprint and parameter set, with structural equality. *)
Record CacheKey : Type := mkKey {
  task : TaskKind;
  fingerprint : N;
  parameters : list string
}.

#[global] Instance CacheKey_eq_dec : EqDecision CacheKey.
Proof. solve_decision. Defined.

#[global] Instance CacheKey_countable : Countable CacheKey.
Proof.
  refine (inj_countable'
            (λ k, (task k, fingerprint k, parameters k))
            (λ t, mkKey t.1.1 t.1.2 t.2) _).
  by intros [].
Defined.

(** Modelled from the spec: CacheEntry, an annotation value with the
    time it was computed at. *)
Record CacheEntry : Type := mkCacheEntry {
  annotation : string;
  computed_at : N
}.

(** Modelled from the spec: [get(key) -> entry|absent] of the
    Fingerprint Cache. *)
Definition get (k : CacheKey) (c : gmap CacheKey CacheEntry) : option CacheEntry :=
  c !! k.

(** Modelled from the spec: [put(key, value)] of the Fingerprint Cache.
    At most one entry per key; an equal value leaves the cache as it
    is, a different value replaces the entry. *)
Definition put (k : CacheKey) (v : string) (now : N)
    (c : gmap CacheKey CacheEntry) : gmap CacheKey CacheEntry :=
  match c !! k with
  | Some e => if decide (annotation e = v) then c else <[k := mkCacheEntry v now]> c
  | None => <[k := mkCacheEntry v now]> c
  end.

(** *** Inference Client *)

(** Modelled from the spec: what one request to the upstream provider
    comes back with: an answer, a rate-limit response, a
    transient-server response, or a malformed payload. *)
Inductive Upstream : Type :=
| Answer (v : string)
| TooManyRequests
| ServerError
| Malformed.

(** Modelled from the spec: the retry policy of the Inference Client:
    base delay, multiplicative growth, maximum delay, maximum attempt
    count. *)
Record RetryConfig : Type := mkRetry {
  base_delay : N;
  growth : N;
  max_delay : N;
  max_attempts : nat
}.

(** Modelled from the spec: the delay slept after the failed attempt
    number [i] (counted from zero): the base delay grown [i] times,
    capped. *)
Definition backoff (cfg : RetryConfig) (i : nat) : N :=
  N.min (max_delay cfg) (base_delay cfg * growth cfg ^ N.of_nat i).

Section Engine.

(** The upstream provider with its own state (quota, outages), and
    the text normalisation and hash behind the content fingerprint. *)
Context {U : Type}.
Variable provider : TaskKind → string → list string → U → Upstream * U.
Variable cfg : RetryConfig.
Variable normalize : string → string.
Variable hash : string → N.

(** Modelled from the spec: the Inference Client's view of the world:
    the provider, the requests sent so far, the delays slept so far
    and the time. *)
Record Client : Type := mkClient {
  upstream : U;
  calls : list TaskKind;
  waits : list N;
  clock : N
}.

(** A request of [kind] went out and came back as [resp]. *)
Definition sent (kind : TaskKind) (resp : Upstream * U) (c : Client) : Client :=
  mkClient resp.2 (calls c ++ [kind]) (waits c) (clock c).

(** The worker waits [d] before its next attempt. *)
Definition sleep (d : N) (c : Client) : Client :=
  mkClient (upstream c) (calls c) (waits c ++ [d]) (clock c + d).

(** Modelled from the spec: one Inference Client call with [left]
    attempts remaining, [i] of them already failed.  An answer or a
    malformed payload ends the call; a rate-limit or transient-server
    response is retried after the backoff delay while attempts
    remain, and surfaces as the typed failure otherwise. *)
Fixpoint attempt (left i : nat) (kind : TaskKind) (text : string)
    (labels : list string) (c : Client) : (InferError + string) * Client :=
  match left with
  | O => (inl UpstreamUnavailable, c)
  | S left' =>
      let resp := provider kind text labels (upstream c) in
      let c1 := sent kind resp c in
      match resp.1 with
      | Answer v => (inr v, c1)
      | Malformed => (inl InvalidResponse, c1)
      | TooManyRequests =>
          match left' with
          | O => (inl RateLimited, c1)
          | S _ => attempt left' (S i) kind text labels (sleep (backoff cfg i) c1)
          end
      | ServerError =>
          match left' with
          | O => (inl UpstreamUnavailable, c1)
          | S _ => attempt left' (S i) kind text labels (sleep (backoff cfg i) c1)
          end
      end
  end.

Definition infer (kind : TaskKind) (text : string) (labels : list string)
    (c : Client) : (InferError + string) * Client :=
  attempt (max_attempts cfg) 0 kind text labels c.

(** Modelled from the spec: the three operations of the Inference
    Client contract. *)
Definition summarize (text : string) := infer Summarize text [].
Definition classifySentiment (text : string) := infer Sentiment text [].
Definition classifyBias (text : string) (labels : list string) :=
  infer Bias text labels.

(** *** Enrichment Engine *)

(** Modelled from the spec: the Article of the data model, as far as
    the pipeline reads and writes it. *)
Record Article : Type := mkArticle {
  article_id : N;
  raw_text : string;
  summary : option string;
  sentiment : option string;
  bias : option string
}.

Definition with_annotation (kind : TaskKind) (v : string) (a : Article) : Article :=
  match kind with
  | Summarize => mkArticle (article_id a) (raw_text a) (Some v) (sentiment a) (bias a)
  | Sentiment => mkArticle (article_id a) (raw_text a) (summary a) (Some v) (bias a)
  | Bias => mkArticle (article_id a) (raw_text a) (summary a) (sentiment a) (Some v)
  end.

Definition annotation_of (kind : TaskKind) (a : Article) : option string :=
  match kind with
  | Summarize => summary a
  | Sentiment => sentiment a
  | Bias => bias a
  end.

(** Modelled from the spec: the state the Engine works on: the
    Fingerprint Cache, the annotations saved in the Article Store
    (per article identifier and task kind), and the Inference
    Client. *)
Record Engine : Type := mkEngine {
  cache : gmap CacheKey CacheEntry;
  store : gmap (N * TaskKind) string;
  client : Client
}.

(** Only bias classification takes a parameter set, its candidate
    labels. *)
Definition params_of (kind : TaskKind) (labels : list string) : list string :=
  match kind with
  | Bias => labels
  | _ => []
  end.

(** Modelled from the spec: step 1 of [enrichOne], the CacheKey of a
    task, from the normalized raw text and the label set. *)
Definition key_of (kind : TaskKind) (text : string) (labels : list string)
  : CacheKey :=
  mkKey kind (hash (normalize text)) (params_of kind labels).

(** Modelled from the spec: steps 2 and 3 of [enrichOne] for one task
    kind: a hit uses the cached value with no upstream call; a miss
    calls the Inference Client, stores a success in the cache and in
    the Article Store, and propagates a failure for this kind only. *)
Definition enrichTask (labels : list string) (a : Article) (kind : TaskKind)
    (s : Engine) : (InferError + string) * Engine :=
  let k := key_of kind (raw_text a) labels in
  match get k (cache s) with
  | Some e => (inr (annotation e), s)
  | None =>
      match infer kind (raw_text a) (params_of kind labels) (client s) with
      | (inr v, c') =>
          (inr v,
           mkEngine (put k v (clock c') (cache s))
                    (<[(article_id a, kind) := v]> (store s))
                    c')
      | (inl e, c') => (inl e, mkEngine (cache s) (store s) c')
      end
  end.

(** Modelled from the spec: the AnnotatedArticle result: the article
    merged with the annotations obtained, and the per-task errors. *)
Record AnnotatedArticle : Type := mkAnnotated {
  merged : Article;
  errors : list (TaskKind * InferError)
}.

Definition record_task (kind : TaskKind) (r : InferError + string)
    (res : AnnotatedArticle) : AnnotatedArticle :=
  match r with
  | inr v => mkAnnotated (with_annotation kind v (merged res)) (errors res)
  | inl e => mkAnnotated (merged res) (errors res ++ [(kind, e)])
  end.

Definition enrichStep (labels : list string) (a : Article)
    (acc : AnnotatedArticle * Engine) (kind : TaskKind)
  : AnnotatedArticle * Engine :=
  let r := enrichTask labels a kind acc.2 in
  (record_task kind r.1 acc.1, r.2).

(** Modelled from the spec: [enrichOne(article)], the three task
    kinds in turn, step 4 merging whatever was obtained. *)
Definition enrichOne (labels : list string) (a : Article) (s : Engine)
  : AnnotatedArticle * Engine :=
  fold_left (enrichStep labels a) task_kinds (mkAnnotated a [], s).

(** The error reported for a task kind, if any. *)
Definition error_of (kind : TaskKind) (res : AnnotatedArticle) : option InferError :=
  (λ p, p.2) <$> List.find (λ p, bool_decide (p.1 = kind)) (errors res).

(** The state each task of [enrichOne] starts from, and what the task
    comes back with. *)
Definition state_before (labels : list string) (a : Article) (s : Engine)
    (kind : TaskKind) : Engine :=
  match kind with
  | Summarize => s
  | Sentiment => (enrichTask labels a Summarize s).2
  | Bias => (enrichTask labels a Sentiment (enrichTask labels a Summarize s).2).2
  end.

Definition outcome (labels : list string) (a : Article) (s : Engine)
    (kind : TaskKind) : InferError + string :=
  (enrichTask labels a kind (state_before labels a s kind)).1.

Definition state_after (labels : list string) (a : Article) (s : Engine)
    (kind : TaskKind) : Engine :=
  (enrichTask labels a kind (state_before labels a s kind)).2.

(** A task that missed the cache and called the Inference Client, with
    what the call returned. *)
Definition inferred (labels : list string) (a : Article) (s : Engine)
    (kind : TaskKind) (r : InferError + string) : Prop :=
  get (key_of kind (raw_text a) labels) (cache (state_before labels a s kind)) = None
  ∧ (infer kind (raw_text a) (params_of kind labels)
       (client (state_before labels a s kind))).1 = r.

(** Number of upstream requests sent for a task kind. *)
Definition calls_for (kind : TaskKind) (s : Engine) : nat :=
  length (filter (λ k, k = kind) (calls (client s))).

End Engine.

(** *** Job Dispatcher *)

(** Modelled from the spec: the per-article status of a Job. *)
Inductive ArticleStatus : Type :=
| pending
| running
| done
| failed.

(** Modelled from the spec: the overall status of a Job. *)
Inductive JobStatus : Type :=
| queued
| job_running
| completed
| completed_with_errors.

#[global] Instance ArticleStatus_eq_dec : EqDecision ArticleStatus.
Proof. solve_decision. Defined.
#[global] Instance JobStatus_eq_dec : EqDecision JobStatus.
Proof. solve_decision. Defined.

(** Modelled from the spec: the Job of the data model, with the
    cancel-requested mark of the Job Dispatcher. *)
Record Job : Type := mkJob {
  job_id : N;
  work : list (N * ArticleStatus);
  overall : JobStatus;
  created : N;
  completed_at : option N;
  cancel_requested : bool
}.

Definition terminal (st : ArticleStatus) : bool :=
  match st with
  | done | failed => true
  | pending | running => false
  end.

Definition is_done (st : ArticleStatus) : bool :=
  match st with
  | done => true
  | _ => false
  end.

Definition is_failed (st : ArticleStatus) : bool :=
  match st with
  | failed => true
  | _ => false
  end.

Definition is_running (st : ArticleStatus) : bool :=
  match st with
  | running => true
  | _ => false
  end.

Definition statuses (j : Job) : list ArticleStatus := (λ w, w.2) <$> work j.

Definition all_terminal (j : Job) : bool := forallb terminal (statuses j).
Definition all_done (j : Job) : bool := forallb is_done (statuses j).
Definition any_failed (j : Job) : bool := existsb is_failed (statuses j).

Definition finished (s : JobStatus) : bool :=
  match s with
  | completed | completed_with_errors => true
  | queued | job_running => false
  end.

(** Modelled from the spec: closing a Job: once every article reached
    done or failed the Job is terminal, completed when all are done
    and completed_with_errors otherwise; before that nothing changes
    (a failure does not fail the Job eagerly). *)
Definition settle (now : N) (j : Job) : Job :=
  if all_terminal j then
    mkJob (job_id j) (work j)
          (if all_done j then completed else completed_with_errors)
          (created j) (Some now) (cancel_requested j)
  else j.

(** Modelled from the spec: [enqueue(articleIDs)] of the Job
    Dispatcher: every article pending, the Job queued.  A batch without
    articles has all its (no) statuses terminal and is closed at once. *)
Definition enqueue (id : N) (ids : list N) (now : N) : Job :=
  settle now (mkJob id ((λ a, (a, pending)) <$> ids) queued now None false).

(** What happens to a Job: a worker picks the article at a position
    up, a worker finishes the article it holds ([enrichOne] returned
    without or with errors), cancellation is requested. *)
Inductive JobEvent : Type :=
| Pickup (i : nat)
| Finish (i : nat) (ok : bool)
| Cancel.

Definition in_flight (j : Job) : nat := length (filter (λ st, st = running) (statuses j)).

Definition set_status (i : nat) (st : ArticleStatus) (j : Job) : list (N * ArticleStatus) :=
  match work j !! i with
  | Some w => <[i := (w.1, st)]> (work j)
  | None => work j
  end.

(** Modelled from the spec: the Job Dispatcher's transitions, for a
    pool of [pool] workers.  A pickup needs a free worker, a pending
    article and no cancellation request, and moves a queued Job to
    running; a finish records done or failed for an article in flight
    and closes the Job when that was the last one; a cancellation
    request marks a Job that is not yet finished. *)
Definition step (pool : nat) (now : N) (ev : JobEvent) (j : Job) : Job :=
  match ev with
  | Pickup i =>
      match work j !! i with
      | Some (_, pending) =>
          if cancel_requested j then j
          else if decide (in_flight j < pool)
          then mkJob (job_id j) (set_status i running j) job_running
                     (created j) (completed_at j) (cancel_requested j)
          else j
      | _ => j
      end
  | Finish i ok =>
      match work j !! i with
      | Some (_, running) =>
          settle now
            (mkJob (job_id j) (set_status i (if ok then done else failed) j)
                   (overall j) (created j) (completed_at j) (cancel_requested j))
      | _ => j
      end
  | Cancel =>
      if finished (overall j) then j
      else mkJob (job_id j) (work j) (overall j) (created j) (completed_at j) true
  end.

(** The Jobs the Dispatcher can hold: created by [enqueue], changed by
    [step] only. *)
Inductive reachable (pool : nat) : Job → Prop :=
| reach_enqueue id ids now : reachable pool (enqueue id ids now)
| reach_step j now ev : reachable pool j → reachable pool (step pool now ev j).

(** Statuses in the order they may be passed through. *)
Definition article_le (a b : ArticleStatus) : bool :=
  match a, b with
  | pending, _ => true
  | running, (running | done | failed) => true
  | done, done => true
  | failed, failed => true
  | _, _ => false
  end.

Definition job_le (a b : JobStatus) : bool :=
  match a, b with
  | queued, _ => true
  | job_running, (job_running | completed | completed_with_errors) => true
  | completed, completed => true
  | completed_with_errors, completed_with_errors => true
  | _, _ => false
  end.

(** A step keeps every article in place and moves no status backwards. *)
Definition work_le (before after : list (N * ArticleStatus)) : Prop :=
  Forall2 (λ w w', w.1 = w'.1 ∧ article_le w.2 w'.2 = true) before after.

(** The overall status agrees with the per-article statuses: closed
    exactly when all of them are terminal, and then completed exactly
    when all are done. *)
Definition consistent (j : Job) : Prop :=
  if all_terminal j
  then overall j = (if all_done j then completed else completed_with_errors)
  else finished (overall j) = false.

End Pipeline.

(** ** Sample inputs used by the examples of Part II *)

Module Samples.

(** A parser that finds a [detail] and an [error] field in every body. *)
Definition detail_parser (text : string) : option (Json Z) :=
  Some (JObj [("detail", JStr "quota exhausted"); ("error", JStr "E42")]).

(** A network that answers every request with [res]. *)
Definition always_responds (res : Api.Response) (r : Api.Request)
  : completion Exn Api.Response := Normal res.

(** A back end on which every call resolves with [null]. *)
Definition calm (n : nat) (op : Api.Op) (a : Arg) : completion Exn (Json Z) :=
  Normal JNull.

(** A back end on which every call rejects. *)
Definition down (n : nat) (op : Api.Op) (a : Arg) : completion Exn (Json Z) :=
  Throw (Error "boom").

(** An article that carries nothing but a bias and a sentiment. *)
Definition labelled (bias sentiment : option string) : Dashboard.Article :=
  Dashboard.mkArticle (ANum 1) "headline" None None sentiment bias.

(** A provider that answers summarization and sentiment requests and
    returns a malformed payload for bias classification. *)
Definition no_bias (kind : Pipeline.TaskKind) (text : string) (labels : list string)
    (u : unit) : Pipeline.Upstream * unit :=
  match kind with
  | Pipeline.Bias => (Pipeline.Malformed, u)
  | _ => (Pipeline.Answer ("about " +:+ text), u)
  end.

(** A provider that is rate limited for its first [u] requests. *)
Definition throttled (kind : Pipeline.TaskKind) (text : string) (labels : list string)
    (u : nat) : Pipeline.Upstream * nat :=
  match u with
  | O => (Pipeline.Answer "fine", O)
  | S u' => (Pipeline.TooManyRequests, u')
  end.

(** A provider that only ever returns malformed payloads. *)
Definition garbled (kind : Pipeline.TaskKind) (text : string) (labels : list string)
    (u : unit) : Pipeline.Upstream * unit := (Pipeline.Malformed, u).

Definition retry_policy : Pipeline.RetryConfig := Pipeline.mkRetry 100 2 1000 5.

Definition fresh {U : Type} (u : U) : Pipeline.Engine :=
  Pipeline.mkEngine ∅ ∅ (Pipeline.mkClient u [] [] 0).

Definition story (id : N) : Pipeline.Article :=
  Pipeline.mkArticle id "Rates rise again" None None None.

Definition bias_labels : list string := ["left"; "center"; "right"; "neutral"].

Definition length_hash (text : string) : N := N.of_nat (String.length text).

Definition shouted (id : N) : Pipeline.Article :=
  Pipeline.mkArticle id "RATES RISE AGAIN" None None None.

(** A batch of two whose first article failed while the second has not
    been picked up. *)
Definition half_failed : Pipeline.Job :=
  Pipeline.step 2 30 (Pipeline.Finish 0 false)
    (Pipeline.step 2 20 (Pipeline.Pickup 0) (Pipeline.enqueue 1 [10; 20]%N 10)).

(** The same batch after the second article was picked up and done. *)
Definition closed_with_errors : Pipeline.Job :=
  Pipeline.step 2 50 (Pipeline.Finish 1 true)
    (Pipeline.step 2 40 (Pipeline.Pickup 1) half_failed).

End Samples.

(** ** The [useFetch] hook, one suspension at a time *)

Module HookSteps.

Section Steps.

Context {D E : Type}.

(** What [call] does before it suspends at the [await]:
    [setLoading(true); setError(null);]. *)
Definition call_start : UseFetch.M (D := D) (E := E) unit :=
  UseFetch.seq (UseFetch.setLoading true) (λ _, UseFetch.setError None).

(** What [call] does once the awaited promise has settled: the
    [try]/[catch]/[finally] around the [await]. *)
Definition call_resume (settled : completion E D) (mounted : bool)
  : UseFetch.M (D := D) (E := E) D :=
  UseFetch.try_finally
    (UseFetch.try_catch
       (UseFetch.seq (UseFetch.await settled) (λ res,
        UseFetch.seq (UseFetch.when mounted (UseFetch.setData res)) (λ _,
        UseFetch.ret res)))
       (λ e,
        UseFetch.seq (UseFetch.when mounted (UseFetch.setError (Some e))) (λ _,
        UseFetch.throw e)))
    (UseFetch.when mounted (UseFetch.setLoading false)).

(** Two calls in flight at once: both start, then the first to settle
    resumes, then the other. *)
Definition overlapped (first second : completion E D) (st : UseFetch.State D E)
  : UseFetch.State D E :=
  (call_resume second true
     (call_resume first true (call_start (call_start st).1).1).1).1.

(** The value a settlement writes to [data], if any. *)
Definition resolved (c : completion E D) : option D :=
  match c with
  | Normal r => Some r
  | Throw _ => None
  end.

(** The value a settlement writes to [error], if any. *)
Definition rejected (c : completion E D) : option E :=
  match c with
  | Normal _ => None
  | Throw e => Some e
  end.

End Steps.

End HookSteps.

(** ** JavaScript string indices

    A JavaScript string is a sequence of UTF-16 code units, and [slice]
    counts those.  The strings of this development hold the same text
    in UTF-8: one to three bytes for a character of one code unit, four
    bytes for a character of two (a surrogate pair); a surrogate that
    stands alone is written like any other code point of its range, in
    three bytes. *)

Module Utf16.

Inductive Width : Type :=
| One
| Two
| Three
| Four.

(** The number of bytes of the sequence a byte opens. *)
Definition width (c : Ascii.ascii) : Width :=
  let n := Ascii.N_of_ascii c in
  if (n <? 192)%N then One
  else if (n <? 224)%N then Two
  else if (n <? 240)%N then Three
  else Four.

Definition payload (c : Ascii.ascii) (mask : N) : N :=
  N.land (Ascii.N_of_ascii c) mask.

(** The code point of a four-byte sequence, less 0x10000: the twenty
    bits a surrogate pair carries. *)
Definition astral (c1 c2 c3 c4 : Ascii.ascii) : N :=
  (payload c1 7 * 262144 + payload c2 63 * 4096 + payload c3 63 * 64
   + payload c4 63 - 65536)%N.

(** The three bytes of the surrogate 0xD800 + [x]. *)
Definition surrogate (x : N) : string :=
  String (Ascii.ascii_of_N 237)
    (String (Ascii.ascii_of_N (160 + x / 64))
       (String (Ascii.ascii_of_N (128 + x mod 64)) EmptyString)).

Definition high_surrogate (c1 c2 c3 c4 : Ascii.ascii) : string :=
  surrogate ((astral c1 c2 c3 c4 / 1024) mod 1024).

Definition low_surrogate (c1 c2 c3 c4 : Ascii.ascii) : string :=
  surrogate (1024 + astral c1 c2 c3 c4 mod 1024).

(** [s.length].  Bytes that end the text in the middle of a sequence
    count as one unit. *)
Fixpoint units (s : string) : nat :=
  match s with
  | EmptyString => 0
  | String c1 r1 =>
      match width c1 with
      | One => S (units r1)
      | Two =>
          match r1 with
          | String _ r2 => S (units r2)
          | _ => 1
          end
      | Three =>
          match r1 with
          | String _ (String _ r3) => S (units r3)
          | _ => 1
          end
      | Four =>
          match r1 with
          | String _ (String _ (String _ r4)) => S (S (units r4))
          | _ => 1
          end
      end
  end.

(** [s.slice(0, n)]: the first [n] code units.  A cut between the two
    units of a pair leaves the high surrogate alone. *)
Fixpoint take (n : nat) (s : string) {struct s} : string :=
  match n, s with
  | O, _ => EmptyString
  | S _, EmptyString => EmptyString
  | S n', String c1 r1 =>
      match width c1 with
      | One => String c1 (take n' r1)
      | Two =>
          match r1 with
          | String c2 r2 => String c1 (String c2 (take n' r2))
          | _ => s
          end
      | Three =>
          match r1 with
          | String c2 (String c3 r3) =>
              String c1 (String c2 (String c3 (take n' r3)))
          | _ => s
          end
      | Four =>
          match r1 with
          | String c2 (String c3 (String c4 r4)) =>
              match n' with
              | O => high_surrogate c1 c2 c3 c4
              | S n'' =>
                  String c1 (String c2 (String c3 (String c4 (take n'' r4))))
              end
          | _ => s
          end
      end
  end.

(** [s.slice(n)]: the text without its first [n] code units.  A cut
    between the two units of a pair leaves the low surrogate alone. *)
Fixpoint drop (n : nat) (s : string) {struct s} : string :=
  match n, s with
  | O, _ => s
  | S _, EmptyString => EmptyString
  | S n', String c1 r1 =>
      match width c1 with
      | One => drop n' r1
      | Two =>
          match r1 with
          | String _ r2 => drop n' r2
          | _ => EmptyString
          end
      | Three =>
          match r1 with
          | String _ (String _ r3) => drop n' r3
          | _ => EmptyString
          end
      | Four =>
          match r1 with
          | String c2 (String c3 (String c4 r4)) =>
              match n' with
              | O => low_surrogate c1 c2 c3 c4 +:+ r4
              | S n'' => drop n'' r4
              end
          | _ => EmptyString
          end
      end
  end.

(** [s.slice(from, to)] for indices that are not negative. *)
Definition slice (s : string) (from to : nat) : string :=
  take (to - from) (drop from s).

End Utf16.

(** ** The provider as the Inference Client meets it *)

Module Retry.

Section Trace.

Context {U : Type}.
Variable provider :
  Pipeline.TaskKind → string → list string → U → Pipeline.Upstream * U.
Variable kind : Pipeline.TaskKind.
Variable text : string.
Variable labels : list string.

(** The provider after [i] requests of the same call. *)
Definition state_at (u : U) (i : nat) : U :=
  Nat.iter i (λ u', (provider kind text labels u').2) u.

(** What the provider answers to request number [i], counted from
    zero. *)
Definition response_at (u : U) (i : nat) : Pipeline.Upstream :=
  (provider kind text labels (state_at u i)).1.

End Trace.

(** Modelled from the spec: the responses the Inference Client retries
    on: rate-limit and transient-server responses. *)
Definition retryable (r : Pipeline.Upstream) : bool :=
  match r with
  | Pipeline.TooManyRequests | Pipeline.ServerError => true
  | Pipeline.Answer _ | Pipeline.Malformed => false
  end.

(** Modelled from the spec: what the Inference Client returns when a
    response ends the call: the value, or the typed failure. *)
Definition surfaced (r : Pipeline.Upstream) : Pipeline.InferError + string :=
  match r with
  | Pipeline.Answer v => inr v
  | Pipeline.Malformed => inl Pipeline.InvalidResponse
  | Pipeline.TooManyRequests => inl Pipeline.RateLimited
  | Pipeline.ServerError => inl Pipeline.UpstreamUnavailable
  end.

End Retry.

(** ** [ArticleModal] and [ArticleList]
       ([hooks/useFetch.js], second document; [components/ArticleList]) *)

Module Views.

(** What the modal shows of an article: the heading, the text, the two
    annotations of the line [Sentiment: … | Bias: …], and the identifier
    its Analyze button passes to [onEnrich]. *)
Record Modal : Type := mkModal {
  modal_heading : string;
  modal_text : string;
  modal_sentiment : string;
  modal_bias : string;
  modal_enrich : Arg
}.

(** [if (!article) return null;] and, for an article,
    [article.summary ?? article.raw_text ?? "No text available"],
    [article.sentiment ?? "—"], [article.bias ?? "—"]. *)
Definition ArticleModal (article : option Dashboard.Article) : option Modal :=
  match article with
  | None => None
  | Some a =>
      Some {| modal_heading := Dashboard.title a;
              modal_text :=
                match Dashboard.summary a with
                | Some s => s
                | None => default "No text available" (Dashboard.raw_text a)
                end;
              modal_sentiment := default "—" (Dashboard.sentiment a);
              modal_bias := default "—" (Dashboard.bias a);
              modal_enrich := Dashboard.id a |}
  end.

(** The modal's annotation line. *)
Definition modal_line (m : Modal) : string :=
  "Sentiment: " +:+ modal_sentiment m +:+ " | Bias: " +:+ modal_bias m.

(** One element of the list: its React key, the card, the identifier
    its Analyze button enriches and the article its title opens. *)
Record Item : Type := mkItem {
  key : Arg;
  card : Dashboard.Card;
  enriches : Arg;
  opens : Dashboard.Article
}.

Inductive ListView : Type :=
| Notice (text : string)
| Cards (items : list Item).

(** [articles.length === 0 ? notice : articles.map(a => <ArticleCard
    key={a.id} article={a} onEnrich={() => onEnrich(a.id)}
    onOpen={() => onOpen(a)} />)] *)
Definition ArticleList (slice : string → nat → nat → string)
    (articles : list Dashboard.Article) : ListView :=
  match articles with
  | [] => Notice "No articles yet — click “Fetch latest”."
  | _ =>
      Cards ((λ a, mkItem (Dashboard.id a) (Dashboard.ArticleCard slice a)
                     (Dashboard.id a) a) <$> articles)
  end.

End Views.

(** ** The navigation of [Layout] ([components/Layout.tsx]) *)

Module Layout.

Record NavItem : Type := mkNav { nav_name : string; href : string }.

Definition navigation : list NavItem :=
  [mkNav "Dashboard" "/";
   mkNav "Articles" "/articles";
   mkNav "Search" "/search";
   mkNav "Analytics" "/analytics";
   mkNav "Settings" "/settings"].

(** [location.pathname === path] *)
Definition isActive (pathname path : string) : bool := String.eqb pathname path.

(** The class list of a navigation link. *)
Definition className (pathname : string) (item : NavItem) : string :=
  "flex items-center px-3 py-2 rounded-md text-sm font-medium transition-colors "
  +:+ (if isActive pathname (href item)
       then "bg-primary-100 text-primary-700"
       else "text-gray-600 hover:bg-gray-100 hover:text-gray-900").

(** The items rendered as active at a location. *)
Definition active_items (pathname : string) : list NavItem :=
  List.filter (λ item, isActive pathname (href item)) navigation.

End Layout.

(** ** More of the counting object of [Dashboard] *)

Module Tally.

(** [(o || 0) + 1] for the value [o] read at key [k]. *)
Definition inc_of (o : option Dashboard.Value) (k : string) : Dashboard.Value :=
  match o with
  | Some (Dashboard.VNum n) => Dashboard.VNum (n + 1)
  | Some (Dashboard.VStr "") => Dashboard.VNum 1
  | Some (Dashboard.VStr s) => Dashboard.VStr (s +:+ "1")
  | None =>
      match Dashboard.inherited k with
      | Some src => Dashboard.VStr (src +:+ "1")
      | None => Dashboard.VNum 1
      end
  end.

(** What one more article filed under [k] does to the property [k]. *)
Definition bump (k : string) (o : option Dashboard.Value) : option Dashboard.Value :=
  if String.eqb k "__proto__" then o else Some (inc_of o k).

(** The property [k] after [n] articles filed under [k]. *)
Definition after (k : string) (n : nat) : option Dashboard.Value :=
  Nat.iter n (bump k) None.

(** The number an entry contributes to a chart. *)
Definition count_of (e : Dashboard.Entry) : N :=
  match Dashboard.value e with
  | Dashboard.VNum n => n
  | Dashboard.VStr _ => 0
  end.

Definition total (es : list Dashboard.Entry) : N :=
  foldr (λ e acc, (count_of e + acc)%N) 0%N es.

End Tally.

(** ** The modal state of [App] *)

Module AppModal.

Section Modal.

Context {number : Type}.

(** [onOpen={(a) => setSelected(a)}] *)
Definition openArticle (a : Json number) (st : App.State (number := number))
  : App.State :=
  App.mkState (App.articles st) (Some a) (App.metrics st) (App.polling st)
    (App.interval st) (App.mounted st) (App.clock st) (App.log st)
    (App.alerts st) (App.console st).

(** [onClose={() => setSelected(null)}] *)
Definition closeModal (st : App.State (number := number)) : App.State :=
  App.mkState (App.articles st) None (App.metrics st) (App.polling st)
    (App.interval st) (App.mounted st) (App.clock st) (App.log st)
    (App.alerts st) (App.console st).

(** The requests the dashboard itself ever makes. *)
Definition dashboard_call (c : Api.Op * Arg) : Prop :=
  c = (Api.fetchArticles, ANum 50)
  ∨ c = (Api.metrics, AUndefined)
  ∨ c.1 = Api.enrichArticle
  ∨ c = (Api.enrichAsync, ANum 10).

End Modal.

End AppModal.

(** ** More sample inputs *)

Module Cases.

(** A parser that rejects the empty text, as [JSON.parse] does. *)
Definition strict_parser (text : string) : option (Json Z) :=
  match text with
  | EmptyString => None
  | _ => Some (JStr text)
  end.

(** An article with a short raw text and no annotation. *)
Definition raw_only : Dashboard.Article :=
  Dashboard.mkArticle (ANum 4) "headline" (Some "Markets fell.") None None None.

(** A back end that serves one article and the metrics on the first
    render and rejects every later call. *)
Definition served_once (n : nat) (op : Api.Op) (a : Arg) : completion Exn (Json Z) :=
  match n with
  | 0 =>
      Normal (JArr [JObj [("id", JNum 3%Z); ("title", JStr "Rates rise again");
                          ("raw_text", JStr "Rates rise again in March.")]])
  | 1 => Normal (JObj [("bias", JArr []); ("sentiment", JArr [])])
  | _ => Throw (Error "boom")
  end.

(** A retry policy whose growth factor is zero. *)
Definition shrinking_policy : Pipeline.RetryConfig := Pipeline.mkRetry 100 0 1000 5.

(** 150 times the letter e with an acute accent: 150 code units, 300
    bytes. *)
Definition accented : string :=
  Nat.iter 150 (λ s, String (Ascii.ascii_of_N 195) (String (Ascii.ascii_of_N 169) s))
    EmptyString.

(** An article whose raw text is [accented], without annotations. *)
Definition accented_only : Dashboard.Article :=
  Dashboard.mkArticle (ANum 5) "headline" (Some accented) None None None.

End Cases.

(* ===================================================================== *)
(** * Part II. Theorems                                                   *)
(* ===================================================================== *)

(** ** Strings *)

Lemma append_inv_head (p a b : string) : p +:+ a = p +:+ b → a = b.
Proof.
  induction p as [|c p IH]; simpl; intros H; [done|].
  injection H as H. by apply IH.
Qed.

(** ** The API client *)

Section ApiFacts.

Context {number : Type}.
Variable VITE_API_URL : option string.
Variable VITE_API_KEY : option string.
Variable encodeURIComponent : string → string.
Variable JSON_parse : string → option (Json number).
Variable number_truthy : number → bool.
Variable number_to_string : number → string.
Variable fetch : Api.Request → completion Exn Api.Response.

#[local] Abbreviation performs :=
  (Api.performs VITE_API_URL VITE_API_KEY encodeURIComponent).
#[local] Abbreviation request_of :=
  (Api.request_of VITE_API_URL VITE_API_KEY encodeURIComponent).
#[local] Abbreviation fetchJson :=
  (Api.fetchJson VITE_API_URL VITE_API_KEY JSON_parse number_truthy
     number_to_string fetch).

(** The method and URL of every operation, as the source writes them. *)
Lemma request_table (a : Arg) :
  let u := Api.API_URL VITE_API_URL in
  let req op := (Api.method (request_of op a), Api.url (request_of op a)) in
  req Api.fetchArticles
    = ("GET", u +:+ "/news?limit=" +:+ template (default_param (ANum 20) a))
  ∧ req Api.getArticle = ("GET", u +:+ "/news/" +:+ template a)
  ∧ req Api.enrichArticle = ("POST", u +:+ "/news/enrich/" +:+ template a)
  ∧ req Api.enrichAll
    = ("POST", u +:+ "/news/enrich_all?limit=" +:+ template (default_param (ANum 5) a))
  ∧ req Api.fetchLatest
    = ("GET", u +:+ "/news/fetch?q=" +:+ encodeURIComponent (template a))
  ∧ req Api.enrichAsync
    = ("POST", u +:+ "/news/enrich_async?limit=" +:+ template (default_param (ANum 5) a))
  ∧ req Api.metrics = ("GET", u +:+ "/news/metrics").
Proof. by repeat split. Qed.

(** Called with no argument, an operation other than the three below
    sends a request that belongs to no contract point, and no operation
    sends a job-status request. *)
Lemma undefined_call_matches (op : Api.Op) (c : Api.ContractPoint) :
  Api.matches VITE_API_URL c (request_of op AUndefined) →
  (op, c) = (Api.enrichArticle, Api.PostEnrich)
  ∨ (op, c) = (Api.enrichAsync, Api.PostEnrichAsync)
  ∨ (op, c) = (Api.metrics, Api.GetMetrics).
Proof.
  destruct op, c; cbn; intros [Hm Hu]; try discriminate Hm; auto;
    try (match type of Hu with ex _ => destruct Hu as [x Hu] end);
    apply append_inv_head in Hu; cbn in Hu; discriminate Hu.
Qed.

(** C1 (as amended).  The client has an operation for three of the four
    contract points: [enrichArticle] performs POST enrich/{id},
    [enrichAsync] performs POST enrich_async?limit=N and [metrics]
    performs GET metrics.  No operation performs GET job/{id}, and the
    four remaining operations ([fetchArticles], [getArticle],
    [enrichAll], [fetchLatest]) perform none of the four contract
    points. *)
Theorem api_contract_points :
  performs Api.enrichArticle Api.PostEnrich
  ∧ performs Api.enrichAsync Api.PostEnrichAsync
  ∧ performs Api.metrics Api.GetMetrics
  ∧ (∀ op, ¬ performs op Api.GetJob)
  ∧ (∀ op c, performs op c →
       (op, c) ∈ [(Api.enrichArticle, Api.PostEnrich);
                  (Api.enrichAsync, Api.PostEnrichAsync);
                  (Api.metrics, Api.GetMetrics)]).
Proof.
  split_and!.
  - intros a. split; [done|]. by exists (template a).
  - intros a. split; [done|]. by exists (template (default_param (ANum 5) a)).
  - intros a. by split.
  - intros op H. by destruct (undefined_call_matches _ _ (H AUndefined)) as [?|[?|?]].
  - intros op c H.
    destruct (undefined_call_matches _ _ (H AUndefined)) as [-> | [-> | ->]];
      set_solver.
Qed.

(** The message [fetchJson] falls back to. *)
Lemma fallback_message_spec (res : Api.Response) :
  Api.fallback_message res
  = if decide (Api.body res = EmptyString)
    then "HTTP " +:+ pretty (Api.status res)
    else Api.body res.
Proof. unfold Api.fallback_message. by destruct (Api.body res). Qed.

(** The [try] block never completes normally. *)
Lemma try_body_throws (text : string) :
  ∃ e, Api.try_body JSON_parse number_truthy number_to_string text = Throw e.
Proof.
  unfold Api.try_body, Api.parse.
  destruct (JSON_parse text) as [j|]; cbn; [|by eexists].
  destruct j; cbn; try by eexists.
  - destruct (Api.truthy_opt _ _); [by eexists|].
    destruct (Api.truthy_opt _ _); by eexists.
Qed.

(** C9.  For a response with [ok] false, [fetchJson] rejects with an
    [Error] whose message is the raw body text, or ["HTTP <status>"]
    for an empty body, whatever [JSON.parse] makes of the body: the
    error built from [detail] or [error] inside the [try] block is
    caught by the block's own [catch] and replaced. *)
Theorem fetchJson_rejects_with_body (path : string) (opts : Api.Opts)
    (res : Api.Response) :
  fetch (Api.request VITE_API_URL VITE_API_KEY path opts) = Normal res →
  Api.ok res = false →
  fetchJson path opts
  = Throw (Error (if decide (Api.body res = EmptyString)
                  then "HTTP " +:+ pretty (Api.status res)
                  else Api.body res)).
Proof.
  intros Hres Hok. unfold Api.fetchJson. rewrite Hres. cbn.
  unfold Api.handle_response. rewrite Hok. cbn.
  destruct (try_body_throws (Api.body res)) as [e ->]. cbn.
  by rewrite fallback_message_spec.
Qed.

End ApiFacts.

Lemma fetchJson_rejects_with_body_witness :
  Api.fetchJson None None Samples.detail_parser (λ z, negb (Z.eqb z 0)) pretty
    (Samples.always_responds (Api.mkResponse 429 "slow down")) "/news/enrich/7" Api.post_opts
  = Throw (Error "slow down")
  ∧ Api.fetchJson None None Samples.detail_parser (λ z, negb (Z.eqb z 0)) pretty
      (Samples.always_responds (Api.mkResponse 503 EmptyString)) "/news/metrics" Api.no_opts
    = Throw (Error "HTTP 503").
Proof.
  split.
  - exact (fetchJson_rejects_with_body None None Samples.detail_parser
             (λ z, negb (Z.eqb z 0)) pretty
             (Samples.always_responds (Api.mkResponse 429 "slow down"))
             "/news/enrich/7" Api.post_opts (Api.mkResponse 429 "slow down")
             eq_refl eq_refl).
  - exact (fetchJson_rejects_with_body None None Samples.detail_parser
             (λ z, negb (Z.eqb z 0)) pretty
             (Samples.always_responds (Api.mkResponse 503 EmptyString))
             "/news/metrics" Api.no_opts (Api.mkResponse 503 EmptyString)
             eq_refl eq_refl).
Defined.

(** C1 (as stated) fails: [fetchArticles] calls none of the four
    contract points, and nothing performs GET job/{id}. *)
Lemma api_contract_points_counterexample :
  ¬ ((∀ op, ∃ c, Api.performs None None id op c)
     ∧ (∀ c, ∃ op, Api.performs None None id op c)).
Proof.
  intros [Hops _]. destruct (Hops Api.fetchArticles) as [c Hc].
  by destruct (undefined_call_matches None None id _ _ (Hc AUndefined))
    as [?|[?|?]].
Qed.

(** ** The [useFetch] hook *)

Section UseFetchFacts.

Context {D E : Type}.

(** C10 (as amended).  While the component is mounted: a rejection
    leaves [data] as it was, sets [error] to the thrown value, ends with
    [loading] false and is re-thrown; a resolution sets [data] to the
    result, leaves [error] null and ends with [loading] false.  When the
    component is no longer mounted at settlement, neither [data] nor
    [error] is written and [loading] stays true; the caller still gets
    the result or the rejection. *)
Theorem call_settles (st : UseFetch.State D E) :
  (∀ e, UseFetch.call (Throw e) true st
        = (UseFetch.mkState (UseFetch.data st) false (Some e), Throw e))
  ∧ (∀ r, UseFetch.call (Normal r) true st
          = (UseFetch.mkState (Some r) false None, Normal r))
  ∧ (∀ c, UseFetch.call c false st
          = (UseFetch.mkState (UseFetch.data st) true None, c)).
Proof.
  split_and!; [done | done |].
  by intros [r|e].
Qed.

(** The completion of [call] is the completion of the wrapped function. *)
Lemma call_completion (c : completion E D) (mounted : bool)
    (st : UseFetch.State D E) :
  (UseFetch.call c mounted st).2 = c.
Proof. by destruct c, mounted. Qed.

End UseFetchFacts.

(** C10 (as stated) fails: a resolution that arrives after the unmount
    does not set [data], and [loading] does not end false. *)
Lemma call_resolves_unmounted_counterexample :
  let st' := (UseFetch.call (E := Exn) (Normal 7%nat) false (UseFetch.initial false)).1 in
  ¬ (UseFetch.data st' = Some 7%nat
     ∧ UseFetch.error st' = None
     ∧ UseFetch.loading st' = false).
Proof. cbn. by intros [? _]. Qed.

(** ** The [App] handlers *)

Section AppFacts.

Context {number : Type}.
Variable respond : nat → Api.Op → Arg → completion Exn (Json number).

#[local] Abbreviation loadMetrics := (App.loadMetrics respond).
#[local] Abbreviation reloadArticles := (App.reloadArticles respond).
#[local] Abbreviation handleEnrich := (App.handleEnrich respond).
#[local] Abbreviation handleEnrichAsync := (App.handleEnrichAsync respond).
#[local] Abbreviation tick := (App.tick respond).
#[local] Abbreviation ticks := (App.ticks respond).
#[local] Abbreviation elapse := (App.elapse respond).

Lemma loadMetrics_frame st :
  App.same_schedule st (loadMetrics st)
  ∧ App.alerts (loadMetrics st) = App.alerts st
  ∧ App.log (loadMetrics st) = App.log st ++ [(Api.metrics, AUndefined)].
Proof.
  unfold App.loadMetrics, App.same_schedule. cbn.
  by destruct (respond _ _ _).
Qed.

Lemma reloadArticles_frame st :
  App.same_schedule st (reloadArticles st).1
  ∧ App.alerts (reloadArticles st).1 = App.alerts st
  ∧ App.log (reloadArticles st).1 = App.log st ++ [(Api.fetchArticles, ANum 50)]
  ∧ (reloadArticles st).2 = respond (length (App.log st)) Api.fetchArticles (ANum 50).
Proof.
  unfold App.reloadArticles, App.same_schedule. cbn.
  by destruct (respond _ _ _), (App.mounted st).
Qed.

Lemma handleEnrich_alerts (id : Arg) st :
  App.alerts (handleEnrich id st)
  = App.alerts st ++
    match respond (length (App.log st)) Api.enrichArticle id with
    | Throw e => ["Enrich failed: " +:+ message e]
    | Normal _ =>
        match respond (S (length (App.log st))) Api.fetchArticles (ANum 50) with
        | Throw e => ["Enrich failed: " +:+ message e]
        | Normal _ => []
        end
    end.
Proof.
  unfold App.handleEnrich, App.reloadArticles, App.loadMetrics, App.api. cbn.
  destruct (respond (length (App.log st)) Api.enrichArticle id) as [r|e]; [|done].
  cbn. rewrite length_app, Nat.add_1_r. cbn.
  destruct (respond (S (length (App.log st))) Api.fetchArticles (ANum 50)) as [r2|e2],
    (App.mounted st); cbn; try done.
  all: destruct (respond _ Api.metrics _); cbn; by rewrite app_nil_r.
Qed.

(** C8 (as amended).  On the synchronous path a rejected enrich request,
    or a rejected reload of the article list after it, is shown as an
    alert ["Enrich failed: " + message]; when both resolve nothing is
    alerted.  Every article card then shows a badge for each of
    sentiment and bias that is present and non-empty and a muted
    placeholder naming the field otherwise, and shows the summary when
    there is one, else [raw_text.slice(0, 200)] followed by an ellipsis,
    or a fixed notice when there is no raw text. *)
Theorem sync_enrich_feedback (slice : string → nat → nat → string)
    (id : Arg) st (a : Dashboard.Article) :
  App.alerts (handleEnrich id st)
  = App.alerts st ++
    match respond (length (App.log st)) Api.enrichArticle id with
    | Throw e => ["Enrich failed: " +:+ message e]
    | Normal _ =>
        match respond (S (length (App.log st))) Api.fetchArticles (ANum 50) with
        | Throw e => ["Enrich failed: " +:+ message e]
        | Normal _ => []
        end
    end
  ∧ Dashboard.sentiment_slot (Dashboard.ArticleCard slice a)
    = match Dashboard.sentiment a with
      | Some s => if decide (s = EmptyString) then Dashboard.Muted "sentiment: —"
                  else Dashboard.Badge s
      | None => Dashboard.Muted "sentiment: —"
      end
  ∧ Dashboard.bias_slot (Dashboard.ArticleCard slice a)
    = match Dashboard.bias a with
      | Some s => if decide (s = EmptyString) then Dashboard.Muted "bias: —"
                  else Dashboard.Badge s
      | None => Dashboard.Muted "bias: —"
      end
  ∧ Dashboard.excerpt (Dashboard.ArticleCard slice a)
    = match Dashboard.summary a, Dashboard.raw_text a with
      | Some s, _ => s
      | None, Some t =>
          if decide (t = EmptyString) then "No text available"
          else slice t 0 200 +:+ "…"
      | None, None => "No text available"
      end.
Proof.
  split; [apply handleEnrich_alerts|].
  destruct a as [i t raw sum sen bia]. cbn.
  split_and!.
  - by destruct sen as [[|??]|].
  - by destruct bia as [[|??]|].
  - unfold Dashboard.excerpt_of. cbn. by destruct sum, raw as [[|??]|].
Qed.

Lemma tick_frame st (due : N) :
  App.interval st = Some due →
  App.polling (tick st) = App.polling st
  ∧ App.interval (tick st) = Some (due + App.POLL_MS)%N
  ∧ App.mounted (tick st) = App.mounted st
  ∧ App.clock (tick st) = due
  ∧ App.log (tick st) = App.log st ++ App.round.
Proof.
  intros Hi. unfold App.tick. rewrite Hi.
  match goal with |- context [App.reloadArticles respond ?s] => set (st1 := s) end.
  destruct (reloadArticles_frame st1) as ((Hp & Hin & Hm & Hc) & _ & Hl & _).
  destruct (loadMetrics_frame (reloadArticles st1).1)
    as ((Hp' & Hin' & Hm' & Hc') & _ & Hl').
  rewrite Hp', Hin', Hm', Hc', Hl', Hp, Hin, Hm, Hc, Hl.
  subst st1. cbn. by rewrite <- app_assoc.
Qed.

Lemma ticks_frame (n : nat) st (due : N) :
  App.interval st = Some due →
  App.polling (ticks n st) = App.polling st
  ∧ App.interval (ticks n st) = Some (due + N.of_nat n * App.POLL_MS)%N
  ∧ App.mounted (ticks n st) = App.mounted st
  ∧ (n ≠ 0%nat → App.clock (ticks n st) = (due + N.of_nat (pred n) * App.POLL_MS)%N)
  ∧ App.log (ticks n st) = App.log st ++ mjoin (replicate n App.round).
Proof.
  revert st due. induction n as [|n IH]; intros st due Hi.
  - cbn. rewrite N.add_0_r, app_nil_r. by split_and!.
  - destruct (tick_frame st due Hi) as (Hp & Hin & Hm & Hc & Hl).
    destruct (IH (tick st) _ Hin) as (Hp' & Hin' & Hm' & Hc' & Hl').
    cbn [App.ticks]. rewrite Hp', Hin', Hm', Hl', Hp, Hm, Hl.
    split_and!; try done.
    + f_equal. lia.
    + intros _. destruct n as [|m]; [cbn; rewrite Hc; lia|].
      rewrite Hc' by done. cbn [pred]. lia.
    + cbn [replicate mjoin list_join]. by rewrite <- app_assoc.
Qed.

(** Between firings nothing is requested; a stretch of [dt] milliseconds
    sees as many rounds as due times fall into it. *)
Lemma elapse_issued st (due dt : N) :
  App.interval st = Some due →
  App.issued st (elapse dt st)
  = mjoin (replicate (N.to_nat (App.due_count (App.clock st + dt) st)) App.round).
Proof.
  intros Hi. unfold App.elapse, App.issued. cbn.
  destruct (ticks_frame (N.to_nat (App.due_count (App.clock st + dt) st)) st due Hi)
    as (_ & _ & _ & _ & ->).
  by rewrite drop_app_length.
Qed.

Lemma scheduled_frame (st st' : App.State (number := number)) :
  App.same_schedule st st' → App.scheduled st → App.scheduled st'.
Proof.
  intros (Hp & Hi & Hm & Hc) [Hmt Hs]. unfold App.scheduled.
  by rewrite Hp, Hi, Hm, Hc.
Qed.

Lemma scheduled_polling_effect st :
  App.mounted st = true → App.scheduled (App.polling_effect respond st).
Proof.
  intros Hm. unfold App.polling_effect, App.scheduled.
  destruct (loadMetrics_frame st) as ((Hp & Hi & Hmt & Hc) & _).
  cbn zeta.
  destruct (App.polling (loadMetrics st)) eqn:Hpol; unfold App.set_interval;
    cbn [App.mounted App.interval App.polling App.clock]; rewrite Hmt, ?Hpol;
    (split; [done|]); [|done].
  split; [done|]. unfold App.POLL_MS. lia.
Qed.

Lemma scheduled_handleEnrichAsync (limit : Arg) st :
  App.scheduled st → App.scheduled (handleEnrichAsync limit st).
Proof.
  intros Hs. unfold App.handleEnrichAsync, App.api.
  destruct (respond _ _ _) as [r|e]; [|exact Hs].
  unfold App.setPolling. cbn [App.polling App.mounted].
  case_bool_decide; [exact Hs|].
  destruct Hs as [-> _]. by apply scheduled_polling_effect.
Qed.

Lemma scheduled_elapse (dt : N) st :
  App.scheduled st → App.scheduled (elapse dt st).
Proof.
  intros [Hm Hs]. unfold App.elapse, App.due_count.
  destruct (App.interval st) as [due|] eqn:Hi.
  - destruct Hs as [Hp [Hlo Hhi]].
    set (n := N.to_nat _).
    destruct (ticks_frame n st due Hi) as (Hp' & Hi' & Hm' & _).
    unfold App.scheduled, App.set_clock.
    cbn [App.mounted App.interval App.polling App.clock].
    rewrite Hi', Hm', Hp'.
    split; [done|]. split; [done|].
    subst n. unfold App.POLL_MS in *.
    destruct (N.leb_spec due (App.clock st + dt)) as [Hle|Hgt].
    + rewrite N2Nat.id.
      pose proof (N.div_mod (App.clock st + dt - due) 20000 ltac:(lia)).
      pose proof (N.mod_lt (App.clock st + dt - due) 20000 ltac:(lia)).
      set (q := ((App.clock st + dt - due) `div` 20000)%N) in *.
      set (m := ((App.clock st + dt - due) `mod` 20000)%N) in *.
      clearbody q m. clear Hp' Hi' Hm'. lia.
    + change (N.of_nat (N.to_nat 0)) with 0%N. lia.
  - change (N.to_nat 0) with 0%nat. unfold App.scheduled. cbn. by rewrite Hi.
Qed.

Lemma scheduled_handle (ev : App.Event) st :
  App.scheduled st → App.scheduled (App.handle respond ev st).
Proof.
  intros Hs. destruct ev as [|id| |dt]; cbn [App.handle].
  - eapply scheduled_frame; [apply loadMetrics_frame|].
    eapply scheduled_frame; [apply reloadArticles_frame|]. done.
  - unfold App.handleEnrich, App.api.
    destruct (respond _ _ _) as [r|e]; [|exact Hs].
    match goal with |- context [App.reloadArticles respond ?s] => set (st1 := s) end.
    assert (App.scheduled (reloadArticles st1).1) as Hs1
      by (eapply scheduled_frame; [apply reloadArticles_frame|exact Hs]).
    destruct (reloadArticles st1) as [st2 [r2|e2]]; cbn in Hs1; [|exact Hs1].
    eapply scheduled_frame; [apply loadMetrics_frame|exact Hs1].
  - by apply scheduled_handleEnrichAsync.
  - by apply scheduled_elapse.
Qed.

Lemma scheduled_run (evs : list App.Event) : App.scheduled (App.run respond evs).
Proof.
  unfold App.run. induction evs as [|ev evs IH] using rev_ind.
  - cbn. apply scheduled_polling_effect.
    by destruct (reloadArticles_frame App.init) as ((_ & _ & -> & _) & _).
  - rewrite fold_left_app. cbn. by apply scheduled_handle.
Qed.

Lemma issued_app (st st' : App.State (number := number)) (l : list (Api.Op * Arg)) :
  App.log st' = App.log st ++ l → App.issued st st' = l.
Proof. intros H. unfold App.issued. by rewrite H, drop_app_length. Qed.

Lemma handleEnrichAsync_log (limit : Arg) (st : App.State) :
  App.log (handleEnrichAsync limit st)
  = App.log st ++
    (Api.enrichAsync, default_param (ANum 5) limit) ::
    match respond (length (App.log st)) Api.enrichAsync (default_param (ANum 5) limit) with
    | Throw _ => []
    | Normal _ =>
        if App.polling st then []
        else if App.mounted st then [(Api.metrics, AUndefined)] else []
    end.
Proof.
  unfold App.handleEnrichAsync, App.api.
  destruct (respond _ _ _) as [r|e]; [|done].
  unfold App.setPolling. cbn [App.polling App.mounted].
  case_bool_decide as Hp; [by rewrite Hp|].
  destruct (App.polling st); [done|].
  destruct (App.mounted st); [|done].
  unfold App.polling_effect. cbn zeta.
  match goal with |- context [App.loadMetrics respond ?s] => set (s0 := s) end.
  destruct (loadMetrics_frame s0) as (_ & _ & Hl).
  destruct (App.polling (loadMetrics s0)); unfold App.set_interval;
    cbn [App.log]; rewrite Hl; subst s0; cbn; by rewrite <- app_assoc.
Qed.

Lemma polling_effect_on (st : App.State) :
  App.polling st = true →
  App.interval (App.polling_effect respond st) = Some (App.clock st + App.POLL_MS)%N
  ∧ App.polling (App.polling_effect respond st) = true.
Proof.
  intros Hp. unfold App.polling_effect. cbn zeta.
  destruct (loadMetrics_frame st) as ((Hq & _ & _ & Hc) & _).
  rewrite Hq, Hp. unfold App.set_interval. cbn [App.interval App.polling].
  rewrite Hc. split; [done|]. exact (eq_trans Hq Hp).
Qed.

(** The requests of a queued enrichment and of the refresh rounds are
    no job-status requests, whatever the base URL. *)
Lemma not_job_status (url key : option string) (enc : string → string)
    (op : Api.Op) (a : Arg) :
  op = Api.enrichAsync ∨ op = Api.fetchArticles ∨ op = Api.metrics →
  ¬ Api.matches url Api.GetJob (Api.request_of url key enc op a).
Proof.
  intros [-> | [-> | ->]] [Hm [x Hu]]; [discriminate Hm| |];
    apply append_inv_head in Hu; cbn in Hu; discriminate Hu.
Qed.

Lemma elem_of_rounds (n : nat) (c : Api.Op * Arg) :
  c ∈ mjoin (replicate n App.round) → c ∈ App.round.
Proof.
  induction n as [|n IH]; cbn [replicate mjoin list_join].
  - by intros ?%elem_of_nil.
  - intros [H|H]%elem_of_app; [exact H|by apply IH].
Qed.

(** C6 (as amended).  When the dashboard successfully queues an
    asynchronous enrichment, polling is enabled.  The first such
    trigger, on a page that is not yet polling, makes the enrich_async
    request, reloads the metrics once and registers the interval one
    period (20000 ms) ahead; a trigger on a page that already polls
    makes the enrich_async request only and leaves the interval where
    it was.  Either way an interval is due within 20000 ms, and from
    then on, with no further input, every 20000 ms the dashboard
    re-fetches the article list (fifty articles) and the metrics, and
    requests nothing in between.  None of these requests is a
    job-status request. *)
Theorem async_enrichment_starts_refresh (evs : list App.Event) (limit : Arg)
    (r : Json number) :
  let st := App.run respond evs in
  respond (length (App.log st)) Api.enrichAsync (default_param (ANum 5) limit)
  = Normal r →
  let st1 := handleEnrichAsync limit st in
  App.polling st1 = true
  ∧ App.issued st st1
    = (Api.enrichAsync, default_param (ANum 5) limit)
      :: (if App.polling st then [] else [(Api.metrics, AUndefined)])
  ∧ (∃ due : N,
      App.interval st1 = Some due
      ∧ (App.clock st1 < due ≤ App.clock st1 + App.POLL_MS)%N
      ∧ (if App.polling st then App.interval st = Some due
         else due = (App.clock st + App.POLL_MS)%N)
      ∧ ∀ dt : N,
          App.issued st1 (elapse dt st1)
          = mjoin (replicate
                     (N.to_nat (if (due <=? App.clock st1 + dt)%N
                                then (App.clock st1 + dt - due) / App.POLL_MS + 1
                                else 0)%N)
                     [(Api.fetchArticles, ANum 50); (Api.metrics, AUndefined)]))
  ∧ ∀ (url key : option string) (enc : string → string) (dt : N)
      (op : Api.Op) (a : Arg),
      (op, a) ∈ App.issued st st1 ++ App.issued st1 (elapse dt st1) →
      ¬ Api.matches url Api.GetJob (Api.request_of url key enc op a).
Proof.
  intros st Hok st1.
  pose proof (scheduled_run evs) as [Hmt Hs0]. fold st in Hmt, Hs0.
  pose proof (scheduled_handleEnrichAsync limit st (scheduled_run evs)) as [Hm Hs].
  fold st1 in Hm, Hs.
  assert (App.issued st st1
          = (Api.enrichAsync, default_param (ANum 5) limit)
            :: (if App.polling st then [] else [(Api.metrics, AUndefined)])) as Hiss.
  { apply issued_app. subst st1. rewrite handleEnrichAsync_log, Hok, Hmt. done. }
  assert (App.polling st1 = true
          ∧ if App.polling st then App.interval st1 = App.interval st
            else App.interval st1 = Some (App.clock st + App.POLL_MS)%N)
    as [Hp Hint].
  { subst st1. unfold App.handleEnrichAsync, App.api. rewrite Hok.
    unfold App.setPolling. cbn [App.polling App.mounted]. rewrite Hmt.
    destruct (App.polling st) eqn:Hpol.
    - by rewrite bool_decide_eq_true_2.
    - rewrite bool_decide_eq_false_2 by done.
      match goal with |- context [App.polling_effect respond ?s] => set (s1 := s) end.
      destruct (polling_effect_on s1 eq_refl) as [Hi1 Hp1]. by split. }
  destruct (App.interval st1) as [due|] eqn:Hi; [|congruence].
  destruct Hs as [_ Hb].
  assert (∀ dt : N,
    App.issued st1 (elapse dt st1)
    = mjoin (replicate
               (N.to_nat (if (due <=? App.clock st1 + dt)%N
                          then (App.clock st1 + dt - due) / App.POLL_MS + 1
                          else 0)%N)
               App.round)) as Hrounds.
  { intros dt. rewrite (elapse_issued st1 due dt Hi).
    unfold App.due_count. by rewrite Hi. }
  split_and!.
  - exact Hp.
  - exact Hiss.
  - exists due. split_and!; [done|apply Hb|apply Hb| |exact Hrounds].
    destruct (App.polling st); [done|]. by injection Hint.
  - intros url key enc dt op a [Hin|Hin]%elem_of_app; apply not_job_status.
    + rewrite Hiss in Hin. apply elem_of_cons in Hin as [[= -> _]|Hin]; [by left|].
      destruct (App.polling st); [by apply elem_of_nil in Hin|].
      apply list_elem_of_singleton in Hin as [= -> _]. by right; right.
    + rewrite Hrounds in Hin. apply elem_of_rounds in Hin.
      apply elem_of_cons in Hin as [[= -> _]|Hin]; [by right; left|].
      apply list_elem_of_singleton in Hin as [= -> _]. by right; right.
Qed.

End AppFacts.

(** C8 (as stated) fails: with an article on the page, an Analyze
    whose enrich request is rejected makes the dashboard show an alert
    with the error message, and nothing else. *)
Lemma sync_enrich_alert_counterexample :
  UseFetch.data (App.articles (App.mount Cases.served_once))
  = Some (JArr [JObj [("id", JNum 3%Z); ("title", JStr "Rates rise again");
                      ("raw_text", JStr "Rates rise again in March.")]])
  ∧ App.alerts (App.mount Cases.served_once) = []
  ∧ App.alerts (App.handleEnrich Cases.served_once (ANum 3)
                  (App.mount Cases.served_once))
    = ["Enrich failed: boom"].
Proof. by vm_compute. Qed.

(** C6 (as stated) fails: a refresh round asks for the article list and
    the metrics; no request of it is a job-status request. *)
Lemma refresh_polls_no_job_status_counterexample :
  let st1 := App.handleEnrichAsync Samples.calm (ANum 10) (App.mount Samples.calm) in
  let st2 := App.elapse Samples.calm 20000 st1 in
  App.issued st1 st2 = [(Api.fetchArticles, ANum 50); (Api.metrics, AUndefined)]
  ∧ ¬ ∃ op a, (op, a) ∈ App.issued st1 st2
              ∧ Api.matches None Api.GetJob (Api.request_of None None id op a).
Proof.
  cbn zeta. assert (App.issued
    (App.handleEnrichAsync Samples.calm (ANum 10) (App.mount Samples.calm))
    (App.elapse Samples.calm 20000
       (App.handleEnrichAsync Samples.calm (ANum 10) (App.mount Samples.calm)))
    = [(Api.fetchArticles, ANum 50); (Api.metrics, AUndefined)]) as -> by by vm_compute.
  split; [done|].
  intros (op & a & Hin & Hm & x & Hu).
  apply append_inv_head in Hu.
  apply elem_of_cons in Hin as [[= -> ->]|Hin]; [cbn in Hu; discriminate Hu|].
  apply elem_of_cons in Hin as [[= -> ->]|Hin]; [cbn in Hu; discriminate Hu|].
  by apply elem_of_nil in Hin.
Qed.

Lemma async_enrichment_starts_refresh_witness :
  let st := App.run Samples.calm [] in
  let st1 := App.handleEnrichAsync Samples.calm (ANum 10) st in
  App.polling st1 = true
  ∧ App.issued st st1
    = (Api.enrichAsync, default_param (ANum 5) (ANum 10))
      :: (if App.polling st then [] else [(Api.metrics, AUndefined)])
  ∧ (∃ due : N,
      App.interval st1 = Some due
      ∧ (App.clock st1 < due ≤ App.clock st1 + App.POLL_MS)%N
      ∧ (if App.polling st then App.interval st = Some due
         else due = (App.clock st + App.POLL_MS)%N)
      ∧ ∀ dt : N,
          App.issued st1 (App.elapse Samples.calm dt st1)
          = mjoin (replicate
                     (N.to_nat (if (due <=? App.clock st1 + dt)%N
                                then (App.clock st1 + dt - due) / App.POLL_MS + 1
                                else 0)%N)
                     [(Api.fetchArticles, ANum 50); (Api.metrics, AUndefined)]))
  ∧ ∀ (url key : option string) (enc : string → string) (dt : N)
      (op : Api.Op) (a : Arg),
      (op, a) ∈ App.issued st st1 ++ App.issued st1 (App.elapse Samples.calm dt st1) →
      ¬ Api.matches url Api.GetJob (Api.request_of url key enc op a).
Proof.
  exact (async_enrichment_starts_refresh Samples.calm [] (ANum 10) JNull eq_refl).
Defined.

(** A second trigger, on a page that already polls, asks for the
    enrichment only: the metrics are not reloaded again and the
    interval stays where it was. *)
Example second_trigger_requests_once :
  let st1 := App.handleEnrichAsync Samples.calm (ANum 10) (App.mount Samples.calm) in
  let st2 := App.handleEnrichAsync Samples.calm (ANum 10) st1 in
  App.issued (App.mount Samples.calm) st1
  = [(Api.enrichAsync, ANum 10); (Api.metrics, AUndefined)]
  ∧ App.issued st1 st2 = [(Api.enrichAsync, ANum 10)]
  ∧ App.interval st1 = Some 20000%N
  ∧ App.interval st2 = Some 20000%N.
Proof. by vm_compute. Qed.

(** ** The [Dashboard] aggregation *)

Section DashboardFacts.

Variable toLowerCase : string → string.
Variable toUpperCase : string → string.

Lemma inherited_proto (k : string) : Dashboard.inherited k = None → k ≠ "__proto__".
Proof. by intros H ->. Qed.

Lemma occurrences_snoc (key : Dashboard.Article → string) (label : string)
    (l : list Dashboard.Article) (a : Dashboard.Article) :
  Dashboard.occurrences key label (l ++ [a])
  = (Dashboard.occurrences key label l + if decide (key a = label) then 1 else 0)%N.
Proof.
  unfold Dashboard.occurrences. rewrite filter_app, length_app.
  rewrite filter_cons, filter_nil. case_decide; cbn; lia.
Qed.

Lemma tally_snoc (key : Dashboard.Article → string) (l : list Dashboard.Article)
    (a : Dashboard.Article) :
  Dashboard.tally key (l ++ [a])
  = Dashboard.assign (Dashboard.tally key l) (key a)
      (Dashboard.incremented (Dashboard.tally key l) (key a)).
Proof. unfold Dashboard.tally. by rewrite fold_left_app. Qed.

(** As long as no key names an inherited property, the object holds for
    every label the number of articles filed under it. *)
Lemma tally_lookup (key : Dashboard.Article → string) (articles : list Dashboard.Article) :
  (∀ a, a ∈ articles → Dashboard.inherited (key a) = None) →
  ∀ label,
    Dashboard.tally key articles !! label
    = Dashboard.count_value (Dashboard.occurrences key label articles).
Proof.
  induction articles as [|a l IH] using rev_ind; intros Hk label.
  - done.
  - assert (∀ b, b ∈ l → Dashboard.inherited (key b) = None) as Hl
      by (intros b Hb; apply Hk, elem_of_app; by left).
    assert (Dashboard.inherited (key a) = None) as Ha
      by (apply Hk, elem_of_app; right; by apply list_elem_of_singleton).
    specialize (IH Hl).
    rewrite tally_snoc, occurrences_snoc.
    unfold Dashboard.assign.
    destruct (String.eqb_spec (key a) "__proto__") as [He|_];
      [by apply inherited_proto in Ha|].
    unfold Dashboard.incremented. rewrite (IH (key a)), Ha.
    destruct (decide (key a = label)) as [->|Hne].
    + rewrite lookup_insert_eq. unfold Dashboard.count_value.
      generalize (Dashboard.occurrences key label l). intros n.
      destruct (decide (n = 0%N)) as [->|Hn]; case_decide; (lia || done).
    + rewrite lookup_insert_ne by done. rewrite IH. f_equal. lia.
Qed.

Lemma elem_of_entries (m : gmap string Dashboard.Value) (e : Dashboard.Entry) :
  e ∈ Dashboard.entries m ↔ m !! Dashboard.name e = Some (Dashboard.value e).
Proof.
  unfold Dashboard.entries. rewrite list_elem_of_fmap. split.
  - intros [[k v] [-> Hkv]]. by apply elem_of_map_to_list in Hkv.
  - intros H. exists (Dashboard.name e, Dashboard.value e).
    split; [by destruct e|]. by apply elem_of_map_to_list.
Qed.

Lemma entries_counts (key : Dashboard.Article → string)
    (articles : list Dashboard.Article) :
  (∀ a, a ∈ articles → Dashboard.inherited (key a) = None) →
  ∀ e, e ∈ Dashboard.entries (Dashboard.tally key articles)
       ↔ Dashboard.value e
         = Dashboard.VNum (Dashboard.occurrences key (Dashboard.name e) articles)
         ∧ Dashboard.occurrences key (Dashboard.name e) articles ≠ 0%N.
Proof.
  intros Hk e. rewrite elem_of_entries, (tally_lookup key articles Hk).
  unfold Dashboard.count_value. case_decide; split.
  - done.
  - by intros [_ ?].
  - by intros [= <-].
  - by intros [-> _].
Qed.

(** C7 (as amended).  For every list of articles none of whose keys is
    the name of a property that an object literal inherits, the bias
    distribution has, for each label, the number of articles whose bias
    (lowercased, a missing or empty one counted as "unknown") is that
    label, the sentiment distribution the number of articles whose
    sentiment (uppercased, a missing or empty one counted as "UNKNOWN")
    is that label; labels nobody has do not occur, and both are
    functions of the article list alone. *)
Theorem metrics_are_counts (articles : list Dashboard.Article) :
  (∀ a, a ∈ articles → Dashboard.inherited (Dashboard.bias_key toLowerCase a) = None) →
  (∀ a, a ∈ articles → Dashboard.inherited (Dashboard.sentiment_key toUpperCase a) = None) →
  (∀ e, e ∈ Dashboard.biasCounts toLowerCase articles
        ↔ Dashboard.value e
          = Dashboard.VNum
              (Dashboard.occurrences (Dashboard.bias_key toLowerCase)
                 (Dashboard.name e) articles)
          ∧ Dashboard.occurrences (Dashboard.bias_key toLowerCase)
              (Dashboard.name e) articles ≠ 0%N)
  ∧ (∀ e, e ∈ Dashboard.sentimentCounts toUpperCase articles
          ↔ Dashboard.value e
            = Dashboard.VNum
                (Dashboard.occurrences (Dashboard.sentiment_key toUpperCase)
                   (Dashboard.name e) articles)
            ∧ Dashboard.occurrences (Dashboard.sentiment_key toUpperCase)
                (Dashboard.name e) articles ≠ 0%N)
  ∧ NoDup (Dashboard.name <$> Dashboard.biasCounts toLowerCase articles)
  ∧ NoDup (Dashboard.name <$> Dashboard.sentimentCounts toUpperCase articles).
Proof.
  intros Hb Hs. split_and!.
  - by apply entries_counts.
  - by apply entries_counts.
  - unfold Dashboard.biasCounts, Dashboard.entries. rewrite <- list_fmap_compose.
    apply (NoDup_fst_map_to_list (Dashboard.biasMap toLowerCase articles)).
  - unfold Dashboard.sentimentCounts, Dashboard.entries. rewrite <- list_fmap_compose.
    apply (NoDup_fst_map_to_list (Dashboard.sentimentMap toUpperCase articles)).
Qed.

End DashboardFacts.

(** The uppercased key never meets an inherited property: every such
    name has a lowercase letter. *)
Lemma upper_ascii_idem (c : Ascii.ascii) :
  Dashboard.upper_ascii (Dashboard.upper_ascii c) = Dashboard.upper_ascii c.
Proof. by destruct c as [[] [] [] [] [] [] [] []]. Qed.

Lemma asciiUpperCase_idem (s : string) :
  Dashboard.asciiUpperCase (Dashboard.asciiUpperCase s) = Dashboard.asciiUpperCase s.
Proof.
  induction s as [|c s IH]; [done|].
  cbn. by rewrite upper_ascii_idem, IH.
Qed.

Lemma sentiment_key_not_inherited (a : Dashboard.Article) :
  Dashboard.inherited (Dashboard.sentiment_key Dashboard.asciiUpperCase a) = None.
Proof.
  unfold Dashboard.sentiment_key.
  pose proof (asciiUpperCase_idem (or_string (Dashboard.sentiment a) "UNKNOWN")) as Hi.
  revert Hi. generalize (Dashboard.asciiUpperCase (or_string (Dashboard.sentiment a) "UNKNOWN")).
  intros k Hk. unfold Dashboard.inherited.
  destruct (String.eqb_spec k "constructor") as [->|_]; [done|].
  destruct (String.eqb_spec k "__proto__") as [->|_]; [done|].
  case_bool_decide as Hin; [|done].
  unfold Dashboard.prototype_methods in Hin.
  repeat (apply elem_of_cons in Hin as [->|Hin]; [done|]).
  by apply elem_of_nil in Hin.
Qed.

(** C7 (as stated) fails: an article whose bias is the empty string is
    counted under "unknown", although its bias field is not missing;
    and an article whose bias is "Constructor" meets the property every
    object literal inherits, so that the entry holds a string and not a
    count. *)
Lemma bias_counts_counterexample :
  (let articles := [Samples.labelled (Some EmptyString) None] in
   Dashboard.biasMap Dashboard.asciiLowerCase articles !! "unknown"
   = Some (Dashboard.VNum 1)
   ∧ Dashboard.count_value
       (Dashboard.occurrences (Dashboard.described_bias_key Dashboard.asciiLowerCase)
          "unknown" articles)
     = None)
  ∧ (let articles := [Samples.labelled (Some "Constructor") None] in
     Dashboard.biasMap Dashboard.asciiLowerCase articles !! "constructor"
     = Some (Dashboard.VStr "function Object() { [native code] }1")
     ∧ Dashboard.count_value
         (Dashboard.occurrences (Dashboard.described_bias_key Dashboard.asciiLowerCase)
            "constructor" articles)
       = Some (Dashboard.VNum 1)).
Proof. by vm_compute. Qed.

(** An article whose bias is "__proto__" is not counted at all. *)
Example proto_bias_dropped :
  Dashboard.biasCounts Dashboard.asciiLowerCase
    [Samples.labelled (Some "__proto__") None; Samples.labelled (Some "left") None]
  = [Dashboard.mkEntry "left" (Dashboard.VNum 1)].
Proof. by vm_compute. Qed.

Lemma metrics_are_counts_witness :
  let articles :=
    [Samples.labelled (Some "Left") (Some "positive");
     Samples.labelled (Some "left") None;
     Samples.labelled None (Some "NEGATIVE")] in
  (Dashboard.mkEntry "left" (Dashboard.VNum 2)
     ∈ Dashboard.biasCounts Dashboard.asciiLowerCase articles)
  ∧ (Dashboard.mkEntry "UNKNOWN" (Dashboard.VNum 1)
       ∈ Dashboard.sentimentCounts Dashboard.asciiUpperCase articles).
Proof.
  cbn zeta.
  set (articles := [Samples.labelled (Some "Left") (Some "positive");
                    Samples.labelled (Some "left") None;
                    Samples.labelled None (Some "NEGATIVE")]).
  assert (∀ a, a ∈ articles →
            Dashboard.inherited (Dashboard.bias_key Dashboard.asciiLowerCase a) = None)
    as Hb.
  { intros a Ha. subst articles.
    repeat (apply elem_of_cons in Ha as [->|Ha]; [by vm_compute|]).
    by apply elem_of_nil in Ha. }
  destruct (metrics_are_counts Dashboard.asciiLowerCase Dashboard.asciiUpperCase
              articles Hb (λ a _, sentiment_key_not_inherited a))
    as (Hbias & Hsent & _).
  split.
  - apply Hbias. by vm_compute.
  - apply Hsent. by vm_compute.
Defined.

(** ** The Inference Client *)

Section InferenceFacts.

Context {U : Type}.
Variable provider : Pipeline.TaskKind → string → list string → U → Pipeline.Upstream * U.
Variable cfg : Pipeline.RetryConfig.

#[local] Abbreviation attempt := (Pipeline.attempt provider cfg).
#[local] Abbreviation infer := (Pipeline.infer provider cfg).

Lemma backoff_capped (i : nat) :
  (Pipeline.backoff cfg i ≤ Pipeline.max_delay cfg)%N.
Proof. unfold Pipeline.backoff. lia. Qed.

Lemma backoff_mono (i j : nat) :
  (1 ≤ Pipeline.growth cfg)%N → i ≤ j →
  (Pipeline.backoff cfg i ≤ Pipeline.backoff cfg j)%N.
Proof.
  intros Hg Hij. unfold Pipeline.backoff.
  apply N.min_le_compat_l, N.mul_le_mono_l, N.pow_le_mono_r; lia.
Qed.

(** The trace of one client call: [n] requests of the same kind, with
    the backoff delays between them. *)
Lemma attempt_trace (left i : nat) (kind : Pipeline.TaskKind) (text : string)
    (labels : list string) (c : Pipeline.Client) :
  ∃ n : nat,
    n ≤ left
    ∧ (left ≠ 0 → n ≠ 0)
    ∧ Pipeline.calls (attempt left i kind text labels c).2
      = Pipeline.calls c ++ replicate n kind
    ∧ Pipeline.waits (attempt left i kind text labels c).2
      = Pipeline.waits c ++ (Pipeline.backoff cfg <$> seq i (pred n))
    ∧ ((attempt left i kind text labels c).1 = inl Pipeline.RateLimited
       ∨ (attempt left i kind text labels c).1 = inl Pipeline.UpstreamUnavailable →
       n = left).
Proof.
  revert i c. induction left as [|left IH]; intros i c.
  - exists 0. cbn. rewrite !app_nil_r. by split_and!.
  - cbn [Pipeline.attempt].
    destruct (provider kind text labels (Pipeline.upstream c)) as [resp u'] eqn:Hp.
    cbn [fst].
    destruct resp as [v| | |].
    + exists 1. cbn. rewrite app_nil_r. split_and!; try done; try lia.
      by intros [?|?].
    + destruct left as [|left'].
      * exists 1. cbn. rewrite app_nil_r. split_and!; try done; lia.
      * destruct (IH (S i) (Pipeline.sleep (Pipeline.backoff cfg i)
                             (Pipeline.sent kind (Pipeline.TooManyRequests, u') c)))
          as (n & Hle & Hpos & Hc & Hw & Hr).
        exists (S n). rewrite Hc, Hw. cbn [Pipeline.sleep Pipeline.sent Pipeline.calls
          Pipeline.waits snd pred].
        destruct n as [|m]; [by destruct Hpos|].
        split_and!; try lia; try done.
        -- by rewrite <- app_assoc.
        -- by rewrite <- app_assoc.
        -- intros H. f_equal. by apply Hr.
    + destruct left as [|left'].
      * exists 1. cbn. rewrite app_nil_r. split_and!; try done; lia.
      * destruct (IH (S i) (Pipeline.sleep (Pipeline.backoff cfg i)
                             (Pipeline.sent kind (Pipeline.ServerError, u') c)))
          as (n & Hle & Hpos & Hc & Hw & Hr).
        exists (S n). rewrite Hc, Hw. cbn [Pipeline.sleep Pipeline.sent Pipeline.calls
          Pipeline.waits snd pred].
        destruct n as [|m]; [by destruct Hpos|].
        split_and!; try lia; try done.
        -- by rewrite <- app_assoc.
        -- by rewrite <- app_assoc.
        -- intros H. f_equal. by apply Hr.
    + exists 1. cbn. rewrite app_nil_r. split_and!; try done; try lia.
      by intros [?|?].
Qed.

Lemma state_at_S (kind : Pipeline.TaskKind) (text : string) (labels : list string)
    (u : U) (n : nat) :
  Retry.state_at provider kind text labels u (S n)
  = Retry.state_at provider kind text labels (provider kind text labels u).2 n.
Proof. unfold Retry.state_at. by rewrite Nat.iter_succ_r. Qed.

Lemma response_at_S (kind : Pipeline.TaskKind) (text : string) (labels : list string)
    (u : U) (n : nat) :
  Retry.response_at provider kind text labels u (S n)
  = Retry.response_at provider kind text labels (provider kind text labels u).2 n.
Proof. unfold Retry.response_at. by rewrite state_at_S. Qed.

(** One client call against the provider's answers: the requests go to
    the provider one after another; every answer but the last is a
    rate-limit or transient-server response; the last one ends the
    call, by its kind or because no attempt is left. *)
Lemma attempt_run (left i : nat) (kind : Pipeline.TaskKind) (text : string)
    (labels : list string) (c : Pipeline.Client) :
  let u := Pipeline.upstream c in
  let r := attempt left i kind text labels c in
  ∃ n : nat,
    n ≤ left
    ∧ (left ≠ 0 → n ≠ 0)
    ∧ Pipeline.calls r.2 = Pipeline.calls c ++ replicate n kind
    ∧ Pipeline.waits r.2
      = Pipeline.waits c ++ (Pipeline.backoff cfg <$> seq i (pred n))
    ∧ Pipeline.upstream r.2 = Retry.state_at provider kind text labels u n
    ∧ (∀ j, S j < n →
         Retry.retryable (Retry.response_at provider kind text labels u j) = true)
    ∧ match n with
      | 0 => r.1 = inl Pipeline.UpstreamUnavailable
      | S m =>
          r.1 = Retry.surfaced (Retry.response_at provider kind text labels u m)
          ∧ (Retry.retryable (Retry.response_at provider kind text labels u m) = true →
             n = left)
      end.
Proof.
  cbn zeta. revert i c. induction left as [|left IH]; intros i c.
  - exists 0. cbn. rewrite !app_nil_r. split_and!; try done. lia.
  - cbn [Pipeline.attempt].
    assert (Retry.response_at provider kind text labels (Pipeline.upstream c) 0
            = (provider kind text labels (Pipeline.upstream c)).1) as H0 by done.
    assert (Retry.state_at provider kind text labels (Pipeline.upstream c) 1
            = (provider kind text labels (Pipeline.upstream c)).2) as H1 by done.
    pose proof (state_at_S kind text labels (Pipeline.upstream c)) as HS.
    pose proof (response_at_S kind text labels (Pipeline.upstream c)) as HR.
    destruct (provider kind text labels (Pipeline.upstream c)) as [resp u'] eqn:Hp.
    cbn [fst snd] in *.
    assert (∀ n, n ≠ 0 →
      (∀ j, S j < n →
         Retry.retryable (Retry.response_at provider kind text labels u' j) = true) →
      Retry.retryable resp = true →
      ∀ j, S j < S n →
        Retry.retryable
          (Retry.response_at provider kind text labels (Pipeline.upstream c) j) = true)
      as Hall.
    { intros n Hn Hn' Hresp [|j] Hj; [by rewrite H0|].
      rewrite HR. apply Hn'. lia. }
    destruct resp as [v| | |].
    + exists 1. cbn [pred seq fmap list_fmap replicate snd fst Pipeline.sent
        Pipeline.calls Pipeline.waits Pipeline.upstream].
      rewrite app_nil_r, H0, H1. split_and!; try done; try lia.
    + destruct left as [|left'].
      * exists 1. cbn [pred seq fmap list_fmap replicate snd fst Pipeline.sent
          Pipeline.calls Pipeline.waits Pipeline.upstream].
        rewrite app_nil_r, H0, H1. split_and!; try done; try lia.
      * destruct (IH (S i) (Pipeline.sleep (Pipeline.backoff cfg i)
                             (Pipeline.sent kind (Pipeline.TooManyRequests, u') c)))
          as (n & Hle & Hpos & Hc & Hw & Hu & Hre & Hres).
        cbn [Pipeline.sleep Pipeline.sent Pipeline.upstream snd] in Hu, Hre, Hres.
        exists (S n). rewrite Hc, Hw, Hu, HS.
        cbn [Pipeline.sleep Pipeline.sent Pipeline.calls Pipeline.waits snd pred].
        destruct n as [|m]; [by destruct Hpos|].
        rewrite HR. destruct Hres as [Hres Hlast].
        split_and!; try lia; try done.
        -- by rewrite <- app_assoc.
        -- by rewrite <- app_assoc.
        -- by apply Hall.
        -- intros H. f_equal. by apply Hlast.
    + destruct left as [|left'].
      * exists 1. cbn [pred seq fmap list_fmap replicate snd fst Pipeline.sent
          Pipeline.calls Pipeline.waits Pipeline.upstream].
        rewrite app_nil_r, H0, H1. split_and!; try done; try lia.
      * destruct (IH (S i) (Pipeline.sleep (Pipeline.backoff cfg i)
                             (Pipeline.sent kind (Pipeline.ServerError, u') c)))
          as (n & Hle & Hpos & Hc & Hw & Hu & Hre & Hres).
        cbn [Pipeline.sleep Pipeline.sent Pipeline.upstream snd] in Hu, Hre, Hres.
        exists (S n). rewrite Hc, Hw, Hu, HS.
        cbn [Pipeline.sleep Pipeline.sent Pipeline.calls Pipeline.waits snd pred].
        destruct n as [|m]; [by destruct Hpos|].
        rewrite HR. destruct Hres as [Hres Hlast].
        split_and!; try lia; try done.
        -- by rewrite <- app_assoc.
        -- by rewrite <- app_assoc.
        -- by apply Hall.
        -- intros H. f_equal. by apply Hlast.
    + exists 1. cbn [pred seq fmap list_fmap replicate snd fst Pipeline.sent
        Pipeline.calls Pipeline.waits Pipeline.upstream].
      rewrite app_nil_r, H0, H1. split_and!; try done; try lia.
Qed.

(** C5 (as amended).  A call of the Inference Client sends its requests
    to the provider one after another, at least one when an attempt is
    configured and never more than the configured maximum; it retries
    exactly on rate-limit and transient-server responses: every
    response before the last is one of the two, and the call ends with
    the first response that is neither, returning its value or
    InvalidResponse, or with the response to the last attempt allowed,
    returning RateLimited or UpstreamUnavailable.  Between successive
    failed attempts it sleeps the base delay grown once more each time
    and capped at the maximum delay, so no delay exceeds the cap, and
    the delays never decrease when the growth factor is at least one. *)
Theorem retry_with_backoff (kind : Pipeline.TaskKind) (text : string)
    (labels : list string) (c : Pipeline.Client) :
  let u := Pipeline.upstream c in
  let r := infer kind text labels c in
  ∃ n : nat,
    Pipeline.calls r.2 = Pipeline.calls c ++ replicate n kind
    ∧ n ≤ Pipeline.max_attempts cfg
    ∧ (Pipeline.max_attempts cfg ≠ 0 → n ≠ 0)
    ∧ Pipeline.upstream r.2 = Retry.state_at provider kind text labels u n
    ∧ (∀ j, S j < n →
         Retry.retryable (Retry.response_at provider kind text labels u j) = true)
    ∧ match n with
      | 0 => r.1 = inl Pipeline.UpstreamUnavailable
      | S m =>
          r.1 = Retry.surfaced (Retry.response_at provider kind text labels u m)
          ∧ (Retry.retryable (Retry.response_at provider kind text labels u m) = true →
             n = Pipeline.max_attempts cfg)
      end
    ∧ ∃ delays : list N,
        Pipeline.waits r.2 = Pipeline.waits c ++ delays
        ∧ length delays = pred n
        ∧ (∀ i d, delays !! i = Some d →
             d = N.min (Pipeline.max_delay cfg)
                   (Pipeline.base_delay cfg * Pipeline.growth cfg ^ N.of_nat i))
        ∧ ((1 ≤ Pipeline.growth cfg)%N →
           ∀ i j d d', i ≤ j → delays !! i = Some d → delays !! j = Some d' →
             (d ≤ d')%N)
        ∧ (∀ i d, delays !! i = Some d → (d ≤ Pipeline.max_delay cfg)%N)
        ∧ (r.1 = inl Pipeline.RateLimited ∨ r.1 = inl Pipeline.UpstreamUnavailable →
           n = Pipeline.max_attempts cfg).
Proof.
  cbn zeta. unfold Pipeline.infer.
  destruct (attempt_run (Pipeline.max_attempts cfg) 0 kind text labels c)
    as (n & Hle & Hpos & Hc & Hw & Hu & Hre & Hres).
  exists n. split_and!; try done.
  exists (Pipeline.backoff cfg <$> seq 0 (pred n)).
  assert (∀ i d, (Pipeline.backoff cfg <$> seq 0 (pred n)) !! i = Some d →
                 d = Pipeline.backoff cfg i) as Hd.
  { intros i d. rewrite list_lookup_fmap.
    destruct (seq 0 (pred n) !! i) as [k|] eqn:Hk; [|done].
    apply lookup_seq in Hk as [-> _]. by intros [= <-]. }
  split_and!; try done.
  - by rewrite length_fmap, length_seq.
  - intros Hg i j d d' Hij Hi Hj.
    rewrite (Hd _ _ Hi), (Hd _ _ Hj). by apply backoff_mono.
  - intros i d Hi. rewrite (Hd _ _ Hi). apply backoff_capped.
  - destruct n as [|m]; [lia|]. destruct Hres as [Hres Hlast].
    intros Hfail. apply Hlast. rewrite Hres in Hfail.
    by destruct (Retry.response_at provider kind text labels (Pipeline.upstream c) m),
      Hfail.
Qed.

End InferenceFacts.

Lemma retry_with_backoff_witness :
  let c := Pipeline.mkClient 9 [] [] 0 in
  let u := Pipeline.upstream c in
  let r := Pipeline.infer Samples.throttled Samples.retry_policy Pipeline.Summarize
             "text" [] c in
  ∃ n : nat,
    Pipeline.calls r.2 = Pipeline.calls c ++ replicate n Pipeline.Summarize
    ∧ n ≤ Pipeline.max_attempts Samples.retry_policy
    ∧ (Pipeline.max_attempts Samples.retry_policy ≠ 0 → n ≠ 0)
    ∧ Pipeline.upstream r.2
      = Retry.state_at Samples.throttled Pipeline.Summarize "text" [] u n
    ∧ (∀ j, S j < n →
         Retry.retryable
           (Retry.response_at Samples.throttled Pipeline.Summarize "text" [] u j)
         = true)
    ∧ match n with
      | 0 => r.1 = inl Pipeline.UpstreamUnavailable
      | S m =>
          r.1 = Retry.surfaced
                  (Retry.response_at Samples.throttled Pipeline.Summarize "text" [] u m)
          ∧ (Retry.retryable
               (Retry.response_at Samples.throttled Pipeline.Summarize "text" [] u m)
             = true →
             n = Pipeline.max_attempts Samples.retry_policy)
      end
    ∧ ∃ delays : list N,
        Pipeline.waits r.2 = Pipeline.waits c ++ delays
        ∧ length delays = pred n
        ∧ (∀ i d, delays !! i = Some d →
             d = N.min (Pipeline.max_delay Samples.retry_policy)
                   (Pipeline.base_delay Samples.retry_policy
                    * Pipeline.growth Samples.retry_policy ^ N.of_nat i))
        ∧ ((1 ≤ Pipeline.growth Samples.retry_policy)%N →
           ∀ i j d d', i ≤ j → delays !! i = Some d → delays !! j = Some d' →
             (d ≤ d')%N)
        ∧ (∀ i d, delays !! i = Some d →
             (d ≤ Pipeline.max_delay Samples.retry_policy)%N)
        ∧ (r.1 = inl Pipeline.RateLimited ∨ r.1 = inl Pipeline.UpstreamUnavailable →
           n = Pipeline.max_attempts Samples.retry_policy).
Proof.
  exact (retry_with_backoff Samples.throttled Samples.retry_policy Pipeline.Summarize
           "text" [] (Pipeline.mkClient 9 [] [] 0)).
Defined.

(** C5 (as stated) fails: with a growth factor of zero the second delay
    is shorter than the first. *)
Lemma shrinking_backoff_counterexample :
  let r := Pipeline.infer Samples.throttled Cases.shrinking_policy Pipeline.Summarize
             "text" [] (Pipeline.mkClient 9 [] [] 0) in
  r.1 = inl Pipeline.RateLimited
  ∧ Pipeline.waits r.2 = [100; 0; 0; 0]%N
  ∧ ¬ (∀ i j d d', i ≤ j →
         Pipeline.waits r.2 !! i = Some d → Pipeline.waits r.2 !! j = Some d' →
         (d ≤ d')%N).
Proof.
  cbn zeta.
  assert (Pipeline.waits
            (Pipeline.infer Samples.throttled Cases.shrinking_policy Pipeline.Summarize
               "text" [] (Pipeline.mkClient 9 [] [] 0)).2 = [100; 0; 0; 0]%N) as ->
    by by vm_compute.
  split_and!; [by vm_compute|done|].
  intros H. specialize (H 0 1 100%N 0%N (le_S _ _ (le_n 0)) eq_refl eq_refl). lia.
Qed.

(** A provider that answers the third request: the call stops there,
    after waiting 100 and 200 ms. *)
Example throttled_twice_trace :
  let r := Pipeline.infer Samples.throttled Samples.retry_policy Pipeline.Summarize
             "text" [] (Pipeline.mkClient 2 [] [] 0) in
  r.1 = inr "fine"
  ∧ length (Pipeline.calls r.2) = 3
  ∧ Pipeline.waits r.2 = [100; 200]%N.
Proof. by vm_compute. Qed.

(** Nine rate-limit responses in a row exhaust the five attempts, after
    waiting 100, 200, 400 and 800 ms. *)
Example throttled_trace :
  let r := Pipeline.infer Samples.throttled Samples.retry_policy Pipeline.Summarize
             "text" [] (Pipeline.mkClient 9 [] [] 0) in
  r.1 = inl Pipeline.RateLimited
  ∧ length (Pipeline.calls r.2) = 5
  ∧ Pipeline.waits r.2 = [100; 200; 400; 800]%N.
Proof. by vm_compute. Qed.

(** ** The Enrichment Engine *)

Section EngineFacts.

Context {U : Type}.
Variable provider : Pipeline.TaskKind → string → list string → U → Pipeline.Upstream * U.
Variable cfg : Pipeline.RetryConfig.
Variable normalize : string → string.
Variable hash : string → N.

#[local] Abbreviation infer := (Pipeline.infer provider cfg).
#[local] Abbreviation key_of := (Pipeline.key_of normalize hash).
#[local] Abbreviation enrichTask := (Pipeline.enrichTask provider cfg normalize hash).
#[local] Abbreviation enrichOne := (Pipeline.enrichOne provider cfg normalize hash).
#[local] Abbreviation state_before := (Pipeline.state_before provider cfg normalize hash).
#[local] Abbreviation outcome := (Pipeline.outcome provider cfg normalize hash).
#[local] Abbreviation state_after := (Pipeline.state_after provider cfg normalize hash).
#[local] Abbreviation inferred := (Pipeline.inferred provider cfg normalize hash).

(** *** The cache *)

Lemma put_fresh (k : Pipeline.CacheKey) (v : string) (now : N)
    (c : gmap Pipeline.CacheKey Pipeline.CacheEntry) :
  c !! k = None → Pipeline.put k v now c = <[k := Pipeline.mkCacheEntry v now]> c.
Proof. intros H. unfold Pipeline.put. by rewrite H. Qed.

Lemma put_lookup (k : Pipeline.CacheKey) (v : string) (now : N)
    (c : gmap Pipeline.CacheKey Pipeline.CacheEntry) :
  Pipeline.annotation <$> Pipeline.get k (Pipeline.put k v now c) = Some v.
Proof.
  unfold Pipeline.get, Pipeline.put.
  destruct (c !! k) as [e|] eqn:He.
  - case_decide as Hv.
    + by rewrite He, <- Hv.
    + by rewrite lookup_insert_eq.
  - by rewrite lookup_insert_eq.
Qed.

(** Inserting a key again with an equal value changes nothing, at
    whatever time. *)
Lemma put_put_same (k : Pipeline.CacheKey) (v : string) (t1 t2 : N)
    (c : gmap Pipeline.CacheKey Pipeline.CacheEntry) :
  Pipeline.put k v t2 (Pipeline.put k v t1 c) = Pipeline.put k v t1 c.
Proof.
  pose proof (put_lookup k v t1 c) as H. unfold Pipeline.get in H.
  unfold Pipeline.put at 1.
  destruct (Pipeline.put k v t1 c !! k) as [e|]; [|done].
  injection H as H. by rewrite decide_True.
Qed.

(** *** One task *)

(** A task either hits the cache and changes nothing, or misses it and
    hands the text to the Inference Client. *)
Lemma enrichTask_cases (labels : list string) (a : Pipeline.Article)
    (kind : Pipeline.TaskKind) (s : Pipeline.Engine) :
  let k := key_of kind (Pipeline.raw_text a) labels in
  let r := infer kind (Pipeline.raw_text a) (Pipeline.params_of kind labels)
             (Pipeline.client s) in
  (∃ e, Pipeline.cache s !! k = Some e
        ∧ enrichTask labels a kind s = (inr (Pipeline.annotation e), s))
  ∨ (Pipeline.cache s !! k = None
     ∧ enrichTask labels a kind s
       = match r.1 with
         | inr v =>
             (inr v,
              Pipeline.mkEngine
                (<[k := Pipeline.mkCacheEntry v (Pipeline.clock r.2)]> (Pipeline.cache s))
                (<[(Pipeline.article_id a, kind) := v]> (Pipeline.store s))
                r.2)
         | inl e => (inl e, Pipeline.mkEngine (Pipeline.cache s) (Pipeline.store s) r.2)
         end).
Proof.
  cbn zeta. unfold Pipeline.enrichTask, Pipeline.get.
  destruct (Pipeline.cache s !! _) as [e|] eqn:He; [left; by exists e|].
  right. split; [done|].
  destruct (infer _ _ _ _) as [[e|v] c']; cbn; [done|].
  by rewrite put_fresh.
Qed.

(** What is cached stays cached, with the same entry. *)
Lemma enrichTask_cache_kept (labels : list string) (a : Pipeline.Article)
    (kind : Pipeline.TaskKind) (s : Pipeline.Engine) (k : Pipeline.CacheKey)
    (e : Pipeline.CacheEntry) :
  Pipeline.cache s !! k = Some e →
  Pipeline.cache (enrichTask labels a kind s).2 !! k = Some e.
Proof.
  intros Hk.
  destruct (enrichTask_cases labels a kind s) as [(e' & _ & ->)|[Hmiss ->]]; [done|].
  destruct (infer _ _ _ _).1; cbn; [done|].
  rewrite lookup_insert_ne; [done|]. by intros <-; congruence.
Qed.

(** An obtained annotation is in the cache afterwards. *)
Lemma enrichTask_cached (labels : list string) (a : Pipeline.Article)
    (kind : Pipeline.TaskKind) (s : Pipeline.Engine) (v : string) :
  (enrichTask labels a kind s).1 = inr v →
  ∃ e, Pipeline.cache (enrichTask labels a kind s).2
         !! key_of kind (Pipeline.raw_text a) labels = Some e
       ∧ Pipeline.annotation e = v.
Proof.
  destruct (enrichTask_cases labels a kind s) as [(e & He & ->)|[Hmiss ->]].
  - cbn. intros [= <-]. by exists e.
  - destruct (infer _ _ _ _).1 as [err|w]; cbn; [done|].
    intros [= <-]. eexists. by rewrite lookup_insert_eq.
Qed.

(** A cached annotation is returned without touching the client. *)
Lemma enrichTask_hit (labels : list string) (a : Pipeline.Article)
    (kind : Pipeline.TaskKind) (s : Pipeline.Engine) (e : Pipeline.CacheEntry) :
  Pipeline.cache s !! key_of kind (Pipeline.raw_text a) labels = Some e →
  enrichTask labels a kind s = (inr (Pipeline.annotation e), s).
Proof.
  intros He.
  destruct (enrichTask_cases labels a kind s) as [(e' & He' & ->)|[Hmiss _]];
    congruence.
Qed.

(** A task only sends requests of its own kind. *)
Lemma enrichTask_calls (labels : list string) (a : Pipeline.Article)
    (kind : Pipeline.TaskKind) (s : Pipeline.Engine) :
  ∃ n, Pipeline.calls (Pipeline.client (enrichTask labels a kind s).2)
       = Pipeline.calls (Pipeline.client s) ++ replicate n kind.
Proof.
  destruct (enrichTask_cases labels a kind s) as [(e & _ & ->)|[_ ->]].
  - exists 0. cbn. by rewrite app_nil_r.
  - destruct (attempt_trace provider cfg (Pipeline.max_attempts cfg) 0 kind
                (Pipeline.raw_text a) (Pipeline.params_of kind labels)
                (Pipeline.client s)) as (n & _ & _ & Hc & _).
    exists n. fold (infer kind (Pipeline.raw_text a) (Pipeline.params_of kind labels)
                      (Pipeline.client s)) in Hc.
    by destruct (infer _ _ _ _).1.
Qed.

Lemma calls_for_other (kind other : Pipeline.TaskKind) (n : nat)
    (l : list Pipeline.TaskKind) :
  other ≠ kind →
  length (filter (λ k, k = kind) (l ++ replicate n other))
  = length (filter (λ k, k = kind) l).
Proof.
  intros Hne. rewrite filter_app, length_app.
  assert (filter (λ k, k = kind) (replicate n other) = []) as ->.
  { induction n as [|n IH]; [done|].
    cbn [replicate]. rewrite filter_cons, IH. by case_decide. }
  cbn. lia.
Qed.

Lemma enrichTask_calls_for_other (labels : list string) (a : Pipeline.Article)
    (kind other : Pipeline.TaskKind) (s : Pipeline.Engine) :
  other ≠ kind →
  Pipeline.calls_for kind (enrichTask labels a other s).2 = Pipeline.calls_for kind s.
Proof.
  intros Hne. unfold Pipeline.calls_for.
  destruct (enrichTask_calls labels a other s) as [n ->].
  by apply calls_for_other.
Qed.

(** A task writes the Article Store under its own kind only. *)
Lemma enrichTask_store_other (labels : list string) (a : Pipeline.Article)
    (kind other : Pipeline.TaskKind) (s : Pipeline.Engine) (i : N) :
  other ≠ kind →
  Pipeline.store (enrichTask labels a other s).2 !! (i, kind)
  = Pipeline.store s !! (i, kind).
Proof.
  intros Hne.
  destruct (enrichTask_cases labels a other s) as [(e & _ & ->)|[_ ->]]; [done|].
  destruct (infer _ _ _ _).1; cbn; [done|].
  rewrite lookup_insert_ne; [done|]. by intros [= _ ?].
Qed.

(** A successful Inference Client call is saved. *)
Lemma enrichTask_saved (labels : list string) (a : Pipeline.Article)
    (kind : Pipeline.TaskKind) (s : Pipeline.Engine) (v : string) :
  Pipeline.cache s !! key_of kind (Pipeline.raw_text a) labels = None →
  (infer kind (Pipeline.raw_text a) (Pipeline.params_of kind labels)
     (Pipeline.client s)).1 = inr v →
  enrichTask labels a kind s
  = (inr v,
     Pipeline.mkEngine
       (<[key_of kind (Pipeline.raw_text a) labels
          := Pipeline.mkCacheEntry v
               (Pipeline.clock
                  (infer kind (Pipeline.raw_text a) (Pipeline.params_of kind labels)
                     (Pipeline.client s)).2)]> (Pipeline.cache s))
       (<[(Pipeline.article_id a, kind) := v]> (Pipeline.store s))
       (infer kind (Pipeline.raw_text a) (Pipeline.params_of kind labels)
          (Pipeline.client s)).2).
Proof.
  intros Hmiss Hv.
  destruct (enrichTask_cases labels a kind s) as [(e & He & _)|[_ ->]];
    [congruence|].
  by rewrite Hv.
Qed.

Lemma enrichTask_failed (labels : list string) (a : Pipeline.Article)
    (kind : Pipeline.TaskKind) (s : Pipeline.Engine) (e : Pipeline.InferError) :
  Pipeline.cache s !! key_of kind (Pipeline.raw_text a) labels = None →
  (infer kind (Pipeline.raw_text a) (Pipeline.params_of kind labels)
     (Pipeline.client s)).1 = inl e →
  (enrichTask labels a kind s).1 = inl e.
Proof.
  intros Hmiss He.
  destruct (enrichTask_cases labels a kind s) as [(e' & He' & _)|[_ ->]];
    [congruence|].
  by rewrite He.
Qed.

(** *** The three tasks of [enrichOne] *)

Lemma enrichOne_unfold (labels : list string) (a : Pipeline.Article)
    (s : Pipeline.Engine) :
  enrichOne labels a s
  = (Pipeline.record_task Pipeline.Bias (outcome labels a s Pipeline.Bias)
       (Pipeline.record_task Pipeline.Sentiment (outcome labels a s Pipeline.Sentiment)
          (Pipeline.record_task Pipeline.Summarize (outcome labels a s Pipeline.Summarize)
             (Pipeline.mkAnnotated a []))),
     (enrichTask labels a Pipeline.Bias (state_before labels a s Pipeline.Bias)).2).
Proof. reflexivity. Qed.

(** The result reports each task on its own: the annotation when the
    task obtained one, else the article's field as it was and the
    task's error. *)
Lemma enrichOne_reports (labels : list string) (a : Pipeline.Article)
    (s : Pipeline.Engine) (kind : Pipeline.TaskKind) :
  match outcome labels a s kind with
  | inr v =>
      Pipeline.annotation_of kind (Pipeline.merged (enrichOne labels a s).1) = Some v
      ∧ Pipeline.error_of kind (enrichOne labels a s).1 = None
  | inl e =>
      Pipeline.annotation_of kind (Pipeline.merged (enrichOne labels a s).1)
      = Pipeline.annotation_of kind a
      ∧ Pipeline.error_of kind (enrichOne labels a s).1 = Some e
  end.
Proof.
  rewrite enrichOne_unfold. cbn [fst].
  destruct kind;
    destruct (outcome labels a s Pipeline.Summarize),
      (outcome labels a s Pipeline.Sentiment),
      (outcome labels a s Pipeline.Bias); by cbn.
Qed.

Lemma state_after_last (labels : list string) (a : Pipeline.Article)
    (s : Pipeline.Engine) :
  (enrichOne labels a s).2 = state_after labels a s Pipeline.Bias.
Proof. reflexivity. Qed.

(** An entry cached before [enrichOne], or by one of its tasks, is
    there at the end and at every later task. *)
Lemma cache_kept_to_end (labels : list string) (a : Pipeline.Article)
    (s : Pipeline.Engine) (kind : Pipeline.TaskKind) (k : Pipeline.CacheKey)
    (e : Pipeline.CacheEntry) :
  Pipeline.cache (state_after labels a s kind) !! k = Some e →
  Pipeline.cache (enrichOne labels a s).2 !! k = Some e.
Proof.
  rewrite state_after_last. unfold Pipeline.state_after.
  destruct kind; cbn [Pipeline.state_before]; intros H.
  - by do 2 apply enrichTask_cache_kept.
  - by apply enrichTask_cache_kept.
  - done.
Qed.

Lemma cache_kept_from_start (labels : list string) (a : Pipeline.Article)
    (s : Pipeline.Engine) (kind : Pipeline.TaskKind) (k : Pipeline.CacheKey)
    (e : Pipeline.CacheEntry) :
  Pipeline.cache s !! k = Some e →
  Pipeline.cache (state_before labels a s kind) !! k = Some e.
Proof.
  destruct kind; cbn [Pipeline.state_before]; intros H.
  - done.
  - by apply enrichTask_cache_kept.
  - by do 2 apply enrichTask_cache_kept.
Qed.

Lemma store_kept_to_end (labels : list string) (a : Pipeline.Article)
    (s : Pipeline.Engine) (kind : Pipeline.TaskKind) (i : N) :
  Pipeline.store (enrichOne labels a s).2 !! (i, kind)
  = Pipeline.store (state_after labels a s kind) !! (i, kind).
Proof.
  rewrite state_after_last. unfold Pipeline.state_after.
  destruct kind; cbn [Pipeline.state_before].
  - rewrite (enrichTask_store_other labels a Pipeline.Summarize Pipeline.Bias) by done.
    by rewrite (enrichTask_store_other labels a Pipeline.Summarize Pipeline.Sentiment).
  - by rewrite (enrichTask_store_other labels a Pipeline.Sentiment Pipeline.Bias).
  - done.
Qed.

(** Requests of a kind are sent by the task of that kind only. *)
Lemma calls_for_enrichOne (labels : list string) (a : Pipeline.Article)
    (s : Pipeline.Engine) (kind : Pipeline.TaskKind) :
  Pipeline.calls_for kind (state_after labels a s kind)
  = Pipeline.calls_for kind (state_before labels a s kind) →
  Pipeline.calls_for kind (enrichOne labels a s).2 = Pipeline.calls_for kind s.
Proof.
  rewrite state_after_last. unfold Pipeline.state_after.
  destruct kind; cbn [Pipeline.state_before].
  - rewrite (enrichTask_calls_for_other labels a Pipeline.Summarize Pipeline.Bias) by done.
    by rewrite (enrichTask_calls_for_other labels a Pipeline.Summarize Pipeline.Sentiment).
  - rewrite (enrichTask_calls_for_other labels a Pipeline.Sentiment Pipeline.Bias) by done.
    by rewrite (enrichTask_calls_for_other labels a Pipeline.Sentiment Pipeline.Summarize).
  - rewrite (enrichTask_calls_for_other labels a Pipeline.Bias Pipeline.Sentiment) by done.
    by rewrite (enrichTask_calls_for_other labels a Pipeline.Bias Pipeline.Summarize).
Qed.

Lemma inferred_outcome (labels : list string) (a : Pipeline.Article)
    (s : Pipeline.Engine) (kind : Pipeline.TaskKind)
    (r : Pipeline.InferError + string) :
  inferred labels a s kind r → outcome labels a s kind = r.
Proof.
  intros [Hmiss Hr]. unfold Pipeline.outcome. destruct r as [e|v].
  - by apply enrichTask_failed.
  - by rewrite (enrichTask_saved _ _ _ _ _ Hmiss Hr).
Qed.

(** C4.  Whatever a task kind fails with, an annotation that the
    Inference Client returned for another kind is saved in the Article
    Store and present in the result, and the result reports the failed
    kind with its error and nothing obtained for it; in particular for
    a successful summarization next to a bias classification that
    returns InvalidResponse. *)
Theorem partial_failure_keeps_successes (labels : list string)
    (a : Pipeline.Article) (s : Pipeline.Engine) (good bad : Pipeline.TaskKind)
    (v : string) (e : Pipeline.InferError) :
  inferred labels a s good (inr v) →
  inferred labels a s bad (inl e) →
  Pipeline.store (enrichOne labels a s).2 !! (Pipeline.article_id a, good) = Some v
  ∧ Pipeline.annotation_of good (Pipeline.merged (enrichOne labels a s).1) = Some v
  ∧ Pipeline.error_of good (enrichOne labels a s).1 = None
  ∧ Pipeline.error_of bad (enrichOne labels a s).1 = Some e
  ∧ Pipeline.annotation_of bad (Pipeline.merged (enrichOne labels a s).1)
    = Pipeline.annotation_of bad a.
Proof.
  intros Hgood Hbad.
  pose proof (enrichOne_reports labels a s good) as Hg.
  pose proof (enrichOne_reports labels a s bad) as Hb.
  rewrite (inferred_outcome _ _ _ _ _ Hgood) in Hg.
  rewrite (inferred_outcome _ _ _ _ _ Hbad) in Hb.
  destruct Hg as [Hg1 Hg2], Hb as [Hb1 Hb2]. split_and!; try done.
  rewrite store_kept_to_end. unfold Pipeline.state_after.
  destruct Hgood as [Hmiss Hv].
  rewrite (enrichTask_saved _ _ _ _ _ Hmiss Hv). cbn.
  by rewrite lookup_insert_eq.
Qed.

Lemma key_of_normalized (kind : Pipeline.TaskKind) (t1 t2 : string)
    (labels : list string) :
  normalize t1 = normalize t2 → key_of kind t1 labels = key_of kind t2 labels.
Proof. intros H. unfold Pipeline.key_of. by rewrite H. Qed.

(** A kind the first enrichment did not fail on is a cache hit in the
    second. *)
Lemma second_enrichment_hits (labels : list string) (a1 a2 : Pipeline.Article)
    (s : Pipeline.Engine) (kind : Pipeline.TaskKind) :
  normalize (Pipeline.raw_text a1) = normalize (Pipeline.raw_text a2) →
  Pipeline.error_of kind (enrichOne labels a1 s).1 = None →
  ∃ v,
    Pipeline.annotation_of kind (Pipeline.merged (enrichOne labels a1 s).1) = Some v
    ∧ ∀ s2, (∀ k e, Pipeline.cache (enrichOne labels a1 s).2 !! k = Some e →
                    Pipeline.cache s2 !! k = Some e) →
            enrichTask labels a2 kind s2 = (inr v, s2).
Proof.
  intros Hn Herr.
  pose proof (enrichOne_reports labels a1 s kind) as Hrep.
  destruct (outcome labels a1 s kind) as [e|v] eqn:Ho; [destruct Hrep; congruence|].
  exists v. split; [apply Hrep|].
  intros s2 Hkept.
  destruct (enrichTask_cached labels a1 kind _ v Ho) as (e & He & <-).
  apply (cache_kept_to_end labels a1 s kind) in He. apply Hkept in He.
  rewrite (key_of_normalized kind _ _ labels Hn) in He.
  by apply enrichTask_hit.
Qed.

(** C3 (as amended).  For two articles with identical normalized text
    and the same label set: for every task kind the first enrichment
    did not fail on, the second enrichment sends no request of that
    kind upstream, reports no error for it and yields the same
    annotation; when the first enrichment reported no error at all, the
    second sends no request whatever.  In the cache, inserting a key
    again with an equal value changes nothing, and after inserting a
    different value the lookup returns the newer one. *)
Theorem cached_enrichment_is_idempotent (labels : list string)
    (a1 a2 : Pipeline.Article) (s : Pipeline.Engine) :
  normalize (Pipeline.raw_text a1) = normalize (Pipeline.raw_text a2) →
  (∀ kind,
     Pipeline.error_of kind (enrichOne labels a1 s).1 = None →
     Pipeline.calls_for kind (enrichOne labels a2 (enrichOne labels a1 s).2).2
     = Pipeline.calls_for kind (enrichOne labels a1 s).2
     ∧ Pipeline.error_of kind (enrichOne labels a2 (enrichOne labels a1 s).2).1 = None
     ∧ Pipeline.annotation_of kind
         (Pipeline.merged (enrichOne labels a2 (enrichOne labels a1 s).2).1)
       = Pipeline.annotation_of kind (Pipeline.merged (enrichOne labels a1 s).1))
  ∧ (Pipeline.errors (enrichOne labels a1 s).1 = [] →
     Pipeline.calls (Pipeline.client (enrichOne labels a2 (enrichOne labels a1 s).2).2)
     = Pipeline.calls (Pipeline.client (enrichOne labels a1 s).2))
  ∧ (∀ k v t1 t2 c, Pipeline.put k v t2 (Pipeline.put k v t1 c) = Pipeline.put k v t1 c)
  ∧ (∀ k v v' t1 t2 c,
       Pipeline.annotation <$> Pipeline.get k (Pipeline.put k v' t2 (Pipeline.put k v t1 c))
       = Some v').
Proof.
  intros Hn. set (s1 := (enrichOne labels a1 s).2). split_and!.
  - intros kind Herr.
    destruct (second_enrichment_hits labels a1 a2 s kind Hn Herr) as (v & Hv & Hhit).
    specialize (Hhit (state_before labels a2 s1 kind)
                  (λ k e, cache_kept_from_start labels a2 s1 kind k e)).
    pose proof (enrichOne_reports labels a2 s1 kind) as Hrep.
    unfold Pipeline.outcome in Hrep. rewrite Hhit in Hrep. cbn [fst] in Hrep.
    destruct Hrep as [Ha He]. split_and!; [|done|by rewrite Ha, Hv].
    apply calls_for_enrichOne. unfold Pipeline.state_after. by rewrite Hhit.
  - intros Hnone.
    assert (∀ kind, Pipeline.error_of kind (enrichOne labels a1 s).1 = None) as Herr
      by (intros kind; unfold Pipeline.error_of; by rewrite Hnone).
    assert (∀ kind s2, (∀ k e, Pipeline.cache s1 !! k = Some e →
                              Pipeline.cache s2 !! k = Some e) →
                       (enrichTask labels a2 kind s2).2 = s2) as Hsame.
    { intros kind s2 Hk.
      destruct (second_enrichment_hits labels a1 a2 s kind Hn (Herr kind))
        as (v & _ & Hhit).
      by rewrite (Hhit s2 Hk). }
    rewrite state_after_last. unfold Pipeline.state_after.
    cbn [Pipeline.state_before].
    rewrite (Hsame Pipeline.Summarize s1) by done.
    rewrite (Hsame Pipeline.Sentiment s1) by done.
    by rewrite (Hsame Pipeline.Bias s1).
  - intros. apply put_put_same.
  - intros. apply put_lookup.
Qed.

End EngineFacts.

Lemma partial_failure_keeps_successes_witness :
  let r := Pipeline.enrichOne Samples.no_bias Samples.retry_policy
             Dashboard.asciiLowerCase Samples.length_hash Samples.bias_labels
             (Samples.story 7) (Samples.fresh tt) in
  Pipeline.store r.2 !! (7%N, Pipeline.Summarize) = Some "about Rates rise again"
  ∧ Pipeline.annotation_of Pipeline.Summarize (Pipeline.merged r.1)
    = Some "about Rates rise again"
  ∧ Pipeline.error_of Pipeline.Summarize r.1 = None
  ∧ Pipeline.error_of Pipeline.Bias r.1 = Some Pipeline.InvalidResponse
  ∧ Pipeline.annotation_of Pipeline.Bias (Pipeline.merged r.1) = None.
Proof.
  apply (partial_failure_keeps_successes Samples.no_bias Samples.retry_policy
           Dashboard.asciiLowerCase Samples.length_hash Samples.bias_labels
           (Samples.story 7) (Samples.fresh tt) Pipeline.Summarize Pipeline.Bias
           "about Rates rise again" Pipeline.InvalidResponse).
  - by vm_compute.
  - by vm_compute.
Defined.

Lemma cached_enrichment_is_idempotent_witness :
  let first := Pipeline.enrichOne Samples.no_bias Samples.retry_policy
                 Dashboard.asciiLowerCase Samples.length_hash Samples.bias_labels
                 (Samples.story 1) (Samples.fresh tt) in
  let second := Pipeline.enrichOne Samples.no_bias Samples.retry_policy
                  Dashboard.asciiLowerCase Samples.length_hash Samples.bias_labels
                  (Samples.shouted 2) first.2 in
  Pipeline.calls_for Pipeline.Summarize second.2
  = Pipeline.calls_for Pipeline.Summarize first.2
  ∧ Pipeline.error_of Pipeline.Summarize second.1 = None
  ∧ Pipeline.annotation_of Pipeline.Summarize (Pipeline.merged second.1)
    = Pipeline.annotation_of Pipeline.Summarize (Pipeline.merged first.1).
Proof.
  apply (proj1 (cached_enrichment_is_idempotent Samples.no_bias Samples.retry_policy
                  Dashboard.asciiLowerCase Samples.length_hash Samples.bias_labels
                  (Samples.story 1) (Samples.shouted 2) (Samples.fresh tt) eq_refl)).
  by vm_compute.
Defined.

(** C3 (as stated) fails: when the first enrichment obtains nothing,
    nothing is cached, and the second enrichment of the same article
    sends its three requests upstream again. *)
Lemma failed_enrichment_counterexample :
  let first := Pipeline.enrichOne Samples.garbled Samples.retry_policy
                 Dashboard.asciiLowerCase Samples.length_hash Samples.bias_labels
                 (Samples.story 1) (Samples.fresh tt) in
  let second := Pipeline.enrichOne Samples.garbled Samples.retry_policy
                  Dashboard.asciiLowerCase Samples.length_hash Samples.bias_labels
                  (Samples.story 1) first.2 in
  length (Pipeline.calls (Pipeline.client first.2)) = 3
  ∧ length (Pipeline.calls (Pipeline.client second.2)) = 6.
Proof. by vm_compute. Qed.

(** ** The Job Dispatcher *)

Section JobFacts.

Variable pool : nat.

Lemma forallb_lookup_false {A} (f : A → bool) (l : list A) (i : nat) (x : A) :
  l !! i = Some x → f x = false → forallb f l = false.
Proof.
  revert i. induction l as [|y l IH]; intros [|i] Hi Hx; try done.
  - injection Hi as ->. cbn. by rewrite Hx.
  - cbn. rewrite (IH i Hi Hx). apply andb_false_r.
Qed.

Lemma statuses_set_status (i : nat) (st : Pipeline.ArticleStatus) (j : Pipeline.Job)
    (w : N * Pipeline.ArticleStatus) :
  Pipeline.work j !! i = Some w →
  (λ w, w.2) <$> Pipeline.set_status i st j = <[i := st]> (Pipeline.statuses j).
Proof.
  intros Hw. unfold Pipeline.set_status, Pipeline.statuses. rewrite Hw.
  by rewrite list_fmap_insert.
Qed.

Lemma statuses_lookup (i : nat) (j : Pipeline.Job) (w : N * Pipeline.ArticleStatus) :
  Pipeline.work j !! i = Some w → Pipeline.statuses j !! i = Some w.2.
Proof. intros Hw. unfold Pipeline.statuses. by rewrite list_lookup_fmap, Hw. Qed.

Lemma all_done_terminal (j : Pipeline.Job) :
  Pipeline.all_done j = true → Pipeline.all_terminal j = true.
Proof.
  unfold Pipeline.all_done, Pipeline.all_terminal.
  induction (Pipeline.statuses j) as [|st l IH]; [done|].
  cbn. intros [Hd Hl]%andb_prop. rewrite (IH Hl). by destruct st.
Qed.

Lemma terminal_not_done_failed (j : Pipeline.Job) :
  Pipeline.all_terminal j = true →
  Pipeline.all_done j = negb (Pipeline.any_failed j).
Proof.
  unfold Pipeline.all_done, Pipeline.all_terminal, Pipeline.any_failed.
  induction (Pipeline.statuses j) as [|st l IH]; [done|].
  cbn. intros [Ht Hl]%andb_prop. rewrite (IH Hl). by destruct st.
Qed.

Lemma all_terminal_spec (j : Pipeline.Job) :
  Pipeline.all_terminal j = true
  ↔ ∀ st, st ∈ Pipeline.statuses j → st = Pipeline.done ∨ st = Pipeline.failed.
Proof.
  unfold Pipeline.all_terminal.
  induction (Pipeline.statuses j) as [|st l IH]; cbn.
  - split; [|done]. intros _ st H. by apply elem_of_nil in H.
  - rewrite andb_true_iff, IH. split.
    + intros [Ht Hl] st' [Heq|Hin]%elem_of_cons; [|auto].
      subst st'. destruct st; auto; done.
    + intros H. split.
      * destruct (H st) as [->| ->]; [by left|done|done].
      * intros st' Hin. apply H. by right.
Qed.

Lemma all_done_spec (j : Pipeline.Job) :
  Pipeline.all_done j = true ↔ ∀ st, st ∈ Pipeline.statuses j → st = Pipeline.done.
Proof.
  unfold Pipeline.all_done.
  induction (Pipeline.statuses j) as [|st l IH]; cbn.
  - split; [|done]. intros _ st H. by apply elem_of_nil in H.
  - rewrite andb_true_iff, IH. split.
    + intros [Ht Hl] st' [Heq|Hin]%elem_of_cons; [|auto].
      subst st'. by destruct st.
    + intros H. split.
      * by rewrite (H st) by (by left).
      * intros st' Hin. apply H. by right.
Qed.

Lemma any_failed_spec (j : Pipeline.Job) :
  Pipeline.any_failed j = true ↔ Pipeline.failed ∈ Pipeline.statuses j.
Proof.
  unfold Pipeline.any_failed.
  induction (Pipeline.statuses j) as [|st l IH]; cbn.
  - split; [done|]. intros H. by apply elem_of_nil in H.
  - rewrite orb_true_iff, IH, elem_of_cons. split.
    + intros [H|H]; [left; by destruct st|by right].
    + intros [<-|H]; [by left|by right].
Qed.

(** *** The overall status follows the per-article statuses *)

Lemma consistent_settle (now : N) (j : Pipeline.Job) :
  Pipeline.finished (Pipeline.overall j) = false →
  Pipeline.consistent (Pipeline.settle now j).
Proof.
  intros Hopen. unfold Pipeline.settle, Pipeline.consistent.
  destruct (Pipeline.all_terminal j) eqn:Ht.
  - unfold Pipeline.all_terminal, Pipeline.all_done, Pipeline.statuses in *. cbn.
    by rewrite Ht.
  - by rewrite Ht.
Qed.

Lemma consistent_open (j : Pipeline.Job) (i : nat) (w : N * Pipeline.ArticleStatus) :
  Pipeline.consistent j →
  Pipeline.work j !! i = Some w → Pipeline.terminal w.2 = false →
  Pipeline.all_terminal j = false ∧ Pipeline.finished (Pipeline.overall j) = false.
Proof.
  intros Hc Hw Hnt.
  assert (Pipeline.all_terminal j = false) as Ht
    by (eapply forallb_lookup_false; [by apply statuses_lookup|done]).
  split; [done|]. unfold Pipeline.consistent in Hc. by rewrite Ht in Hc.
Qed.

Lemma consistent_closed (j : Pipeline.Job) :
  Pipeline.consistent j → Pipeline.finished (Pipeline.overall j) = true →
  Pipeline.all_terminal j = true.
Proof.
  unfold Pipeline.consistent. destruct (Pipeline.all_terminal j); [done|congruence].
Qed.

Lemma consistent_step (now : N) (ev : Pipeline.JobEvent) (j : Pipeline.Job) :
  Pipeline.consistent j → Pipeline.consistent (Pipeline.step pool now ev j).
Proof.
  intros Hc. destruct ev as [i|i ok|]; cbn [Pipeline.step].
  - destruct (Pipeline.work j !! i) as [[a []]|] eqn:Hw; try done.
    destruct (Pipeline.cancel_requested j); [done|].
    case_decide; [|done].
    unfold Pipeline.consistent, Pipeline.all_terminal, Pipeline.statuses. cbn.
    rewrite (statuses_set_status i Pipeline.running j _ Hw).
    rewrite (forallb_lookup_false Pipeline.terminal _ i Pipeline.running); [done| |done].
    apply list_lookup_insert_eq. unfold Pipeline.statuses. rewrite length_fmap.
    by apply lookup_lt_Some in Hw.
  - destruct (Pipeline.work j !! i) as [[a []]|] eqn:Hw; try done.
    apply consistent_settle. cbn.
    by destruct (consistent_open j i _ Hc Hw).
  - destruct (Pipeline.finished (Pipeline.overall j)); done.
Qed.

Lemma consistent_reachable (j : Pipeline.Job) :
  Pipeline.reachable pool j → Pipeline.consistent j.
Proof.
  induction 1 as [id ids now|j now ev _ IH].
  - by apply consistent_settle.
  - by apply consistent_step.
Qed.

(** *** No status moves backwards *)

Lemma work_le_refl (l : list (N * Pipeline.ArticleStatus)) : Pipeline.work_le l l.
Proof.
  unfold Pipeline.work_le. induction l as [|[a st] l IH]; constructor; [|done].
  split; [done|]. by destruct st.
Qed.

Lemma work_le_set_status (i : nat) (st : Pipeline.ArticleStatus) (j : Pipeline.Job)
    (w : N * Pipeline.ArticleStatus) :
  Pipeline.work j !! i = Some w → Pipeline.article_le w.2 st = true →
  Pipeline.work_le (Pipeline.work j) (Pipeline.set_status i st j).
Proof.
  intros Hw Hle. unfold Pipeline.set_status. rewrite Hw.
  rewrite <- (list_insert_id (Pipeline.work j) i w Hw) at 1.
  apply Forall2_insert; [apply work_le_refl|done].
Qed.

Lemma settle_work (now : N) (j : Pipeline.Job) :
  Pipeline.work (Pipeline.settle now j) = Pipeline.work j.
Proof. unfold Pipeline.settle. by destruct (Pipeline.all_terminal j). Qed.

Lemma settle_overall_le (now : N) (j : Pipeline.Job) :
  Pipeline.finished (Pipeline.overall j) = false →
  Pipeline.job_le (Pipeline.overall j) (Pipeline.overall (Pipeline.settle now j)) = true.
Proof.
  intros Hopen. unfold Pipeline.settle.
  destruct (Pipeline.all_terminal j), (Pipeline.all_done j), (Pipeline.overall j);
    done.
Qed.

Lemma job_le_refl (s : Pipeline.JobStatus) : Pipeline.job_le s s = true.
Proof. by destruct s. Qed.

Lemma step_monotone (now : N) (ev : Pipeline.JobEvent) (j : Pipeline.Job) :
  Pipeline.consistent j →
  Pipeline.job_le (Pipeline.overall j) (Pipeline.overall (Pipeline.step pool now ev j))
  = true
  ∧ Pipeline.work_le (Pipeline.work j) (Pipeline.work (Pipeline.step pool now ev j)).
Proof.
  intros Hc. destruct ev as [i|i ok|]; cbn [Pipeline.step].
  - destruct (Pipeline.work j !! i) as [[a []]|] eqn:Hw;
      try (split; [apply job_le_refl|apply work_le_refl]).
    destruct (Pipeline.cancel_requested j);
      [split; [apply job_le_refl|apply work_le_refl]|].
    case_decide; [|split; [apply job_le_refl|apply work_le_refl]].
    destruct (consistent_open j i _ Hc Hw) as [_ Hopen]; [done|].
    cbn. split.
    + by destruct (Pipeline.overall j).
    + by apply (work_le_set_status i Pipeline.running j _ Hw).
  - destruct (Pipeline.work j !! i) as [[a []]|] eqn:Hw;
      try (split; [apply job_le_refl|apply work_le_refl]).
    destruct (consistent_open j i _ Hc Hw) as [_ Hopen]; [done|].
    split.
    + by apply (settle_overall_le now
                  (Pipeline.mkJob (Pipeline.job_id j)
                     (Pipeline.set_status i (if ok then Pipeline.done else Pipeline.failed) j)
                     (Pipeline.overall j) (Pipeline.created j)
                     (Pipeline.completed_at j) (Pipeline.cancel_requested j))).
    + rewrite settle_work. cbn.
      apply (work_le_set_status i _ j _ Hw). by destruct ok.
  - destruct (Pipeline.finished (Pipeline.overall j));
      (split; [apply job_le_refl|apply work_le_refl]).
Qed.

(** *** A finished Job does not change *)

Lemma step_finished (now : N) (ev : Pipeline.JobEvent) (j : Pipeline.Job) :
  Pipeline.consistent j → Pipeline.finished (Pipeline.overall j) = true →
  Pipeline.step pool now ev j = j.
Proof.
  intros Hc Hfin. destruct ev as [i|i ok|]; cbn [Pipeline.step].
  - destruct (Pipeline.work j !! i) as [[a []]|] eqn:Hw; try done.
    destruct (consistent_open j i _ Hc Hw) as [_ Hopen]; [done|congruence].
  - destruct (Pipeline.work j !! i) as [[a []]|] eqn:Hw; try done.
    destruct (consistent_open j i _ Hc Hw) as [_ Hopen]; [done|congruence].
  - by rewrite Hfin.
Qed.

(** C2 (as amended).  For every Job the Dispatcher can hold: the overall
    status is completed if and only if every per-article status is
    done; it is completed_with_errors if and only if every per-article
    status is terminal and at least one is failed; it is neither queued
    nor running once all per-article statuses are terminal; no step
    moves the overall status or a per-article status backwards; and a
    Job whose status is completed or completed_with_errors is left
    unchanged by every step. *)
Theorem job_status_invariants (j : Pipeline.Job) :
  Pipeline.reachable pool j →
  (Pipeline.overall j = Pipeline.completed
   ↔ ∀ st, st ∈ Pipeline.statuses j → st = Pipeline.done)
  ∧ (Pipeline.overall j = Pipeline.completed_with_errors
     ↔ (∀ st, st ∈ Pipeline.statuses j → st = Pipeline.done ∨ st = Pipeline.failed)
       ∧ Pipeline.failed ∈ Pipeline.statuses j)
  ∧ ((∀ st, st ∈ Pipeline.statuses j → st = Pipeline.done ∨ st = Pipeline.failed) →
     Pipeline.overall j ≠ Pipeline.queued ∧ Pipeline.overall j ≠ Pipeline.job_running)
  ∧ (∀ now ev,
       Pipeline.job_le (Pipeline.overall j)
         (Pipeline.overall (Pipeline.step pool now ev j)) = true
       ∧ Pipeline.work_le (Pipeline.work j) (Pipeline.work (Pipeline.step pool now ev j))
       ∧ (Pipeline.overall j = Pipeline.completed
          ∨ Pipeline.overall j = Pipeline.completed_with_errors →
          Pipeline.step pool now ev j = j)).
Proof.
  intros Hr. pose proof (consistent_reachable j Hr) as Hc.
  rewrite <- all_done_spec, <- all_terminal_spec, <- any_failed_spec.
  pose proof (all_done_terminal j) as Hdt.
  pose proof (terminal_not_done_failed j) as Htf.
  unfold Pipeline.consistent in Hc.
  split_and!.
  - destruct (Pipeline.all_terminal j), (Pipeline.all_done j),
      (Pipeline.overall j); try done; by specialize (Hdt eq_refl).
  - destruct (Pipeline.all_terminal j), (Pipeline.all_done j),
      (Pipeline.any_failed j), (Pipeline.overall j); try done;
      try (by specialize (Htf eq_refl)); split; try done; by intros [? ?].
  - intros Ht. rewrite Ht in Hc.
    destruct (Pipeline.all_done j), (Pipeline.overall j); done.
  - intros now ev.
    destruct (step_monotone now ev j (consistent_reachable j Hr)) as [Hj Hw].
    split_and!; try done.
    intros Hfin. apply step_finished; [by apply consistent_reachable|].
    by destruct Hfin as [-> | ->].
Qed.

End JobFacts.

Lemma half_failed_reachable : Pipeline.reachable 2 Samples.half_failed.
Proof. unfold Samples.half_failed. repeat constructor. Qed.

(** C2 (as stated) fails: a Job with a failed article and a pending one
    is still running; an article that failed does not close the Job. *)
Lemma failed_article_counterexample :
  Pipeline.reachable 2 Samples.half_failed
  ∧ Pipeline.failed ∈ Pipeline.statuses Samples.half_failed
  ∧ Pipeline.overall Samples.half_failed = Pipeline.job_running.
Proof.
  split; [apply half_failed_reachable|]. split; [|done].
  vm_compute. by left.
Qed.

Lemma job_status_invariants_witness :
  Pipeline.overall Samples.closed_with_errors = Pipeline.completed_with_errors
  ↔ (∀ st, st ∈ Pipeline.statuses Samples.closed_with_errors →
           st = Pipeline.done ∨ st = Pipeline.failed)
    ∧ Pipeline.failed ∈ Pipeline.statuses Samples.closed_with_errors.
Proof.
  apply (job_status_invariants 2 Samples.closed_with_errors).
  unfold Samples.closed_with_errors. do 2 constructor. apply half_failed_reachable.
Defined.

(** The closed Job of the example, spelled out. *)
Example closed_with_errors_value :
  Pipeline.statuses Samples.closed_with_errors = [Pipeline.failed; Pipeline.done]
  ∧ Pipeline.overall Samples.closed_with_errors = Pipeline.completed_with_errors
  ∧ Pipeline.completed_at Samples.closed_with_errors = Some 50%N.
Proof. by vm_compute. Qed.

(* ===================================================================== *)
(** * Part III. Further properties of the front end                       *)
(* ===================================================================== *)

(** ** [fetchJson] and the request it builds *)

Section ApiMore.

Context {number : Type}.
Variable VITE_API_URL : option string.
Variable VITE_API_KEY : option string.
Variable encodeURIComponent : string → string.
Variable JSON_parse : string → option (Json number).
Variable number_truthy : number → bool.
Variable number_to_string : number → string.
Variable fetch : Api.Request → completion Exn Api.Response.

#[local] Abbreviation request := (Api.request VITE_API_URL VITE_API_KEY).
#[local] Abbreviation request_of :=
  (Api.request_of VITE_API_URL VITE_API_KEY encodeURIComponent).
#[local] Abbreviation fetchJson :=
  (Api.fetchJson VITE_API_URL VITE_API_KEY JSON_parse number_truthy
     number_to_string fetch).

(** X1.  [fetchJson] resolves exactly when the response is ok and its
    body parses, and then with the parsed body; a rejection of [fetch]
    itself is passed on as it is. *)
Theorem fetchJson_resolves_iff (path : string) (opts : Api.Opts) :
  (∀ j, fetchJson path opts = Normal j
        ↔ ∃ res, fetch (request path opts) = Normal res
                 ∧ Api.ok res = true
                 ∧ JSON_parse (Api.body res) = Some j)
  ∧ (∀ e, fetch (request path opts) = Throw e → fetchJson path opts = Throw e).
Proof.
  split.
  - intros j. unfold Api.fetchJson.
    destruct (fetch (request path opts)) as [res|e] eqn:Hf; cbn.
    + unfold Api.handle_response.
      destruct (Api.ok res) eqn:Hok; cbn.
      * unfold Api.parse. destruct (JSON_parse (Api.body res)) as [j'|] eqn:Hp.
        -- split; [intros [= <-]; by exists res|].
           intros (res' & [= <-] & _ & Hj). congruence.
        -- split; [done|]. intros (res' & [= <-] & _ & Hj). congruence.
      * destruct (try_body_throws JSON_parse number_truthy number_to_string
                    (Api.body res)) as [e ->].
        cbn. split; [done|]. intros (res' & [= <-] & Hok' & _). congruence.
    + split; [done|]. by intros (res' & ? & _).
  - intros e He. unfold Api.fetchJson. by rewrite He.
Qed.

(** X2.  An ok response with an empty body, such as a 204, makes
    [fetchJson] reject with a SyntaxError, since [JSON.parse] refuses
    the empty text. *)
Theorem fetchJson_empty_ok_body (path : string) (opts : Api.Opts)
    (res : Api.Response) :
  JSON_parse EmptyString = None →
  fetch (request path opts) = Normal res →
  Api.ok res = true →
  Api.body res = EmptyString →
  ∃ e, fetchJson path opts = Throw e ∧ ename e = "SyntaxError".
Proof.
  intros Hp Hf Hok Hb. unfold Api.fetchJson. rewrite Hf. cbn.
  unfold Api.handle_response. rewrite Hok. cbn.
  unfold Api.parse. rewrite Hb, Hp. by eexists.
Qed.

(** The merged object as a finite map. *)
Lemma list_to_map_spread_set (k v : string) (o : list (string * string)) :
  (list_to_map (Api.spread_set k v o) : gmap string string)
  = <[k := v]> (list_to_map o).
Proof.
  induction o as [|[k' v'] o IH]; [done|].
  cbn [Api.spread_set]. destruct (String.eqb_spec k k') as [->|Hne].
  - cbn. by rewrite insert_insert_eq.
  - cbn. rewrite IH. by apply insert_insert_ne.
Qed.

Lemma list_to_map_spread (a b : list (string * string)) :
  (list_to_map (Api.spread a b) : gmap string string)
  = list_to_map (reverse b) ∪ list_to_map a.
Proof.
  induction b as [|[k v] b IH] using rev_ind.
  - cbn. by rewrite (left_id_L ∅ (∪)).
  - unfold Api.spread in *. rewrite fold_left_app. cbn [fold_left fst snd].
    rewrite list_to_map_spread_set, IH, reverse_snoc. cbn.
    by rewrite insert_union_l.
Qed.

(** X3.  The headers of a request are the caller's headers laid over
    the three defaults: a header the caller names takes the caller's
    (last) value, any other default is kept, and without caller
    headers, as in every operation of the client, exactly the defaults
    are sent, the API key among them. *)
Theorem request_headers (path : string) (opts : Api.Opts) :
  (list_to_map (Api.req_headers (request path opts)) : gmap string string)
  = list_to_map (reverse (default [] (Api.opt_headers opts)))
    ∪ list_to_map (Api.headers VITE_API_KEY)
  ∧ (Api.opt_headers opts = None →
     Api.req_headers (request path opts) = Api.headers VITE_API_KEY)
  ∧ (∀ op a,
       Api.req_headers (request_of op a)
       = [("x-api-key", Api.API_KEY VITE_API_KEY);
          ("Content-Type", "application/json");
          ("Accept", "application/json")]).
Proof.
  split_and!.
  - apply list_to_map_spread.
  - intros H. unfold Api.request. cbn. by rewrite H.
  - by intros [] a.
Qed.

(** X4.  [getArticle] and [enrichArticle] put the identifier into the
    path as it is: an identifier that starts with [job/] turns
    [getArticle] into a job-status request and the identifier
    [metrics] into the metrics request, while [fetchLatest] passes its
    query through [encodeURIComponent]. *)
Theorem identifiers_are_not_escaped (s : string) (a : Arg) :
  Api.url (request_of Api.getArticle (AStr s))
  = Api.API_URL VITE_API_URL +:+ "/news/" +:+ s
  ∧ Api.url (request_of Api.enrichArticle (AStr s))
    = Api.API_URL VITE_API_URL +:+ "/news/enrich/" +:+ s
  ∧ Api.matches VITE_API_URL Api.GetJob
      (request_of Api.getArticle (AStr ("job/" +:+ s)))
  ∧ request_of Api.getArticle (AStr "metrics") = request_of Api.metrics a
  ∧ Api.url (request_of Api.fetchLatest (AStr s))
    = Api.API_URL VITE_API_URL +:+ "/news/fetch?q=" +:+ encodeURIComponent s.
Proof.
  split_and!; try done.
  split; [done|]. by exists s.
Qed.

End ApiMore.

Lemma fetchJson_empty_ok_body_witness :
  ∃ e, Api.fetchJson None None Cases.strict_parser (λ z, negb (Z.eqb z 0)) pretty
         (Samples.always_responds (Api.mkResponse 204 EmptyString))
         "/news/enrich/7" Api.post_opts
       = Throw e
       ∧ ename e = "SyntaxError".
Proof.
  exact (fetchJson_empty_ok_body None None Cases.strict_parser
           (λ z, negb (Z.eqb z 0)) pretty
           (Samples.always_responds (Api.mkResponse 204 EmptyString))
           "/news/enrich/7" Api.post_opts (Api.mkResponse 204 EmptyString)
           eq_refl eq_refl eq_refl eq_refl).
Defined.

(** ** Calls of [useFetch] in flight together *)

Section HookMore.

Context {D E : Type}.

(** X5.  [call] is its start followed, at settlement, by its
    resumption; with two calls in flight on a mounted component the
    first settlement already ends [loading], [data] is the result of
    the call that resolved last (whichever was made first), and an
    error set by the first settlement stays when the other call
    resolves after it. *)
Theorem overlapped_calls (first second : completion E D) (st : UseFetch.State D E) :
  (∀ mounted,
     UseFetch.call first mounted st
     = HookSteps.call_resume first mounted (HookSteps.call_start st).1)
  ∧ UseFetch.loading
      (HookSteps.call_resume first true
         (HookSteps.call_start (HookSteps.call_start st).1).1).1 = false
  ∧ HookSteps.overlapped first second st
    = UseFetch.mkState
        (match HookSteps.resolved second, HookSteps.resolved first with
         | Some r, _ => Some r
         | None, Some r => Some r
         | None, None => UseFetch.data st
         end)
        false
        (match HookSteps.rejected second with
         | Some e => Some e
         | None => HookSteps.rejected first
         end).
Proof. split_and!; [done| |]; by destruct first, second. Qed.

End HookMore.

(** ** The modal, the list and the navigation *)

(** X6.  Without an article the modal renders nothing.  With one, its
    Analyze button enriches that article; it agrees with the card where
    the card shows a badge or the summary, but where the card shows a
    placeholder the modal shows a dash only for a missing annotation
    and an empty text for an empty one, and it shows the raw text whole
    where the card cuts it. *)
Theorem modal_and_card (slice : string → nat → nat → string)
    (a : Dashboard.Article) :
  Views.ArticleModal None = None
  ∧ ∃ m, Views.ArticleModal (Some a) = Some m
         ∧ Views.modal_enrich m = Dashboard.id a
         ∧ Views.modal_sentiment m
           = match Dashboard.sentiment_slot (Dashboard.ArticleCard slice a),
                   Dashboard.sentiment a with
             | Dashboard.Badge s, _ => s
             | Dashboard.Muted _, Some _ => EmptyString
             | Dashboard.Muted _, None => "—"
             end
         ∧ Views.modal_bias m
           = match Dashboard.bias_slot (Dashboard.ArticleCard slice a),
                   Dashboard.bias a with
             | Dashboard.Badge s, _ => s
             | Dashboard.Muted _, Some _ => EmptyString
             | Dashboard.Muted _, None => "—"
             end
         ∧ Views.modal_text m
           = match Dashboard.summary a, Dashboard.raw_text a with
             | Some s, _ => Dashboard.excerpt (Dashboard.ArticleCard slice a)
             | None, Some t => t
             | None, None => Dashboard.excerpt (Dashboard.ArticleCard slice a)
             end.
Proof.
  split; [done|]. eexists. split; [done|].
  destruct a as [i t raw sum sen bia]. cbn.
  split_and!; try done.
  - by destruct sen as [[|??]|].
  - by destruct bia as [[|??]|].
  - by destruct sum, raw.
Qed.

(** X7.  The list shows its notice exactly when there is no article;
    otherwise it shows one card per article, in the order of the
    articles, each with the card of its article, keyed by the
    article's identifier, and with an Analyze button that enriches that
    identifier. *)
Theorem ArticleList_items (slice : string → nat → nat → string)
    (articles : list Dashboard.Article) :
  ((∃ text, Views.ArticleList slice articles = Views.Notice text) ↔ articles = [])
  ∧ (articles ≠ [] →
     ∃ items,
       Views.ArticleList slice articles = Views.Cards items
       ∧ length items = length articles
       ∧ ∀ i a, articles !! i = Some a →
                items !! i
                = Some (Views.mkItem (Dashboard.id a) (Dashboard.ArticleCard slice a)
                          (Dashboard.id a) a)).
Proof.
  split.
  - destruct articles as [|a0 l]; split.
    + done.
    + intros _. by eexists.
    + intros [text H]. discriminate H.
    + done.
  - intros Hne. destruct articles as [|a0 l]; [done|].
    eexists. split; [done|]. split; [by rewrite length_fmap|].
    intros i a Hi. by rewrite list_lookup_fmap, Hi.
Qed.

(** X8.  At every location at most one navigation link is active: the
    one whose target is the location exactly; a location that is no
    target, a nested or a trailing-slash one for instance, activates
    none. *)
Theorem navigation_active (pathname : string) :
  length (Layout.active_items pathname) ≤ 1
  ∧ (∀ item, item ∈ Layout.active_items pathname
             ↔ item ∈ Layout.navigation ∧ Layout.href item = pathname)
  ∧ (Layout.active_items pathname = []
     ↔ pathname ∉ Layout.href <$> Layout.navigation).
Proof.
  assert (∀ item, item ∈ Layout.active_items pathname
                  ↔ item ∈ Layout.navigation ∧ Layout.href item = pathname) as Hin.
  { intros item. unfold Layout.active_items.
    rewrite !list_elem_of_In, List.filter_In. unfold Layout.isActive.
    rewrite String.eqb_eq. split; intros [? ?]; by split. }
  split_and!; [|exact Hin|].
  - unfold Layout.active_items, Layout.navigation, Layout.isActive. cbn.
    repeat match goal with
           | |- context [String.eqb pathname ?s] =>
               destruct (String.eqb_spec pathname s) as [->|?]; cbn
           end; lia.
  - split.
    + intros Hnil [item [-> Hitem]]%list_elem_of_fmap.
      assert (item ∈ Layout.active_items (Layout.href item)) as H
        by (by apply Hin).
      rewrite Hnil in H. by apply elem_of_nil in H.
    + intros Hnot. destruct (Layout.active_items pathname) as [|item l] eqn:He;
        [done|].
      exfalso. apply Hnot. apply list_elem_of_fmap. exists item.
      assert (item ∈ item :: l) as H by (by left).
      apply Hin in H as [? ?]. by split.
Qed.

(** ** The [App] handlers over time *)

Section AppMore.

Context {number : Type}.
Variable respond : nat → Api.Op → Arg → completion Exn (Json number).

#[local] Abbreviation loadMetrics := (App.loadMetrics respond).
#[local] Abbreviation reloadArticles := (App.reloadArticles respond).
#[local] Abbreviation handleEnrich := (App.handleEnrich respond).
#[local] Abbreviation handleEnrichAsync := (App.handleEnrichAsync respond).
#[local] Abbreviation tick := (App.tick respond).
#[local] Abbreviation ticks := (App.ticks respond).
#[local] Abbreviation elapse := (App.elapse respond).
#[local] Abbreviation handle := (App.handle respond).
#[local] Abbreviation run := (App.run respond).

(** *** What each handler asks the back end *)

Lemma handleEnrich_log (id : Arg) (st : App.State) :
  App.log (handleEnrich id st)
  = App.log st ++
    (Api.enrichArticle, id) ::
    match respond (length (App.log st)) Api.enrichArticle id with
    | Throw _ => []
    | Normal _ =>
        (Api.fetchArticles, ANum 50) ::
        match respond (S (length (App.log st))) Api.fetchArticles (ANum 50) with
        | Throw _ => []
        | Normal _ => [(Api.metrics, AUndefined)]
        end
    end.
Proof.
  unfold App.handleEnrich, App.reloadArticles, App.loadMetrics, App.api. cbn.
  destruct (respond (length (App.log st)) Api.enrichArticle id) as [r|e]; [|done].
  cbn. rewrite length_app, Nat.add_1_r. cbn.
  destruct (respond (S (length (App.log st))) Api.fetchArticles (ANum 50)) as [r2|e2],
    (App.mounted st); cbn; try (by rewrite <- app_assoc).
  all: destruct (respond _ Api.metrics _); cbn; by rewrite <- !app_assoc.
Qed.

(** X9.  Analyze asks for the enrichment first, reloads the article
    list only when the enrichment succeeded, and reloads the metrics
    only when that reload succeeded too; a failed step ends the
    sequence. *)
Theorem handleEnrich_requests (id : Arg) (st : App.State) :
  App.issued st (handleEnrich id st)
  = (Api.enrichArticle, id) ::
    match respond (length (App.log st)) Api.enrichArticle id with
    | Throw _ => []
    | Normal _ =>
        (Api.fetchArticles, ANum 50) ::
        match respond (S (length (App.log st))) Api.fetchArticles (ANum 50) with
        | Throw _ => []
        | Normal _ => [(Api.metrics, AUndefined)]
        end
    end.
Proof. apply issued_app, handleEnrich_log. Qed.

Lemma elapse_log (dt : N) (st : App.State) :
  App.log (elapse dt st)
  = App.log st
    ++ mjoin (replicate (N.to_nat (App.due_count (App.clock st + dt) st)) App.round).
Proof.
  unfold App.elapse. cbn.
  destruct (App.interval st) as [due|] eqn:Hi.
  - by destruct (ticks_frame respond
                   (N.to_nat (App.due_count (App.clock st + dt) st)) st due Hi)
      as (_ & _ & _ & _ & ->).
  - unfold App.due_count. rewrite Hi.
    change (N.to_nat 0) with 0. cbn. by rewrite app_nil_r.
Qed.

Ltac dashboard_calls :=
  cbn [app];
  repeat match goal with
         | |- Forall _ [] => constructor
         | |- Forall _ (_ :: _) =>
             constructor;
             [unfold AppModal.dashboard_call; cbn;
              first [by left | by right; left | by right; right; left
                    | by right; right; right]|]
         end.

Lemma handle_log (ev : App.Event) (st : App.State) :
  ∃ l, App.log (handle ev st) = App.log st ++ l
       ∧ Forall AppModal.dashboard_call l.
Proof.
  destruct ev as [|id| |dt]; cbn [App.handle].
  - destruct (reloadArticles_frame respond st) as (_ & _ & Hl & _).
    destruct (loadMetrics_frame respond (reloadArticles st).1) as (_ & _ & Hl').
    eexists. rewrite Hl', Hl, <- app_assoc. split; [done|].
    dashboard_calls.
  - rewrite handleEnrich_log. eexists. split; [done|].
    destruct (respond _ Api.enrichArticle _);
      [destruct (respond _ Api.fetchArticles _)|];
      dashboard_calls.
  - rewrite handleEnrichAsync_log. eexists. split; [done|].
    destruct (respond _ _ _), (App.polling st), (App.mounted st);
      dashboard_calls.
  - rewrite elapse_log. eexists. split; [done|].
    induction (N.to_nat _) as [|n IH]; [done|].
    cbn. dashboard_calls. exact IH.
Qed.

(** X10.  Whatever the user and the clock do, the dashboard only ever
    lists fifty articles, loads the metrics, enriches one article, or
    queues an asynchronous enrichment of ten: it never calls
    [getArticle], [enrichAll] or [fetchLatest]. *)
Theorem dashboard_calls (evs : list App.Event) :
  Forall AppModal.dashboard_call (App.log (run evs))
  ∧ ∀ op a, (op, a) ∈ App.log (run evs) →
            op ≠ Api.getArticle ∧ op ≠ Api.enrichAll ∧ op ≠ Api.fetchLatest.
Proof.
  assert (Forall AppModal.dashboard_call (App.log (run evs))) as Hall.
  { unfold App.run. induction evs as [|ev evs IH] using rev_ind.
    - cbn. unfold App.mount, App.polling_effect. cbn zeta.
      destruct (reloadArticles_frame respond App.init) as (_ & _ & Hl & _).
      destruct (loadMetrics_frame respond (reloadArticles App.init).1)
        as (_ & _ & Hl').
      destruct (App.polling _); unfold App.set_interval; cbn [App.log];
        rewrite Hl', Hl; cbn;
        dashboard_calls.
    - rewrite fold_left_app. cbn [fold_left].
      destruct (handle_log ev (fold_left (λ st ev, handle ev st) evs
                                 (App.mount respond))) as (l & -> & Hl).
      by apply Forall_app. }
  split; [exact Hall|].
  intros op a Hin. rewrite Forall_forall in Hall.
  destruct (Hall _ Hin) as [[= -> _]|[[= -> _]|[Hop|[= -> _]]]]; try done.
  cbn in Hop. by subst op.
Qed.

(** *** What the handlers leave alone *)

Lemma loadMetrics_more (st : App.State) :
  App.selected (loadMetrics st) = App.selected st
  ∧ App.articles (loadMetrics st) = App.articles st
  ∧ match respond (length (App.log st)) Api.metrics AUndefined with
    | Normal m =>
        App.metrics (loadMetrics st) = m ∧ App.console (loadMetrics st) = App.console st
    | Throw e =>
        App.metrics (loadMetrics st) = App.metrics st
        ∧ App.console (loadMetrics st) = App.console st ++ [e]
    end.
Proof.
  unfold App.loadMetrics, App.api. cbn. by destruct (respond _ _ _).
Qed.

Lemma reloadArticles_more (st : App.State) :
  App.selected (reloadArticles st).1 = App.selected st
  ∧ App.metrics (reloadArticles st).1 = App.metrics st
  ∧ App.console (reloadArticles st).1 = App.console st.
Proof.
  unfold App.reloadArticles, App.api. cbn.
  by destruct (respond _ _ _), (App.mounted st).
Qed.

Lemma tick_more (st : App.State) :
  App.selected (tick st) = App.selected st ∧ App.alerts (tick st) = App.alerts st.
Proof.
  unfold App.tick. destruct (App.interval st) as [due|]; [|done].
  match goal with |- context [App.reloadArticles respond ?s] => set (s0 := s) end.
  destruct (loadMetrics_more (reloadArticles s0).1) as (-> & _).
  destruct (loadMetrics_frame respond (reloadArticles s0).1) as (_ & -> & _).
  destruct (reloadArticles_more s0) as (-> & _).
  by destruct (reloadArticles_frame respond s0) as (_ & -> & _).
Qed.

Lemma ticks_more (n : nat) (st : App.State) :
  App.selected (ticks n st) = App.selected st
  ∧ App.alerts (ticks n st) = App.alerts st.
Proof.
  revert st. induction n as [|n IH]; intros st; [done|].
  cbn [App.ticks]. destruct (IH (tick st)) as [-> ->]. apply tick_more.
Qed.

Lemma selected_handle (ev : App.Event) (st : App.State) :
  App.selected (handle ev st) = App.selected st.
Proof.
  destruct ev as [|id| |dt]; cbn [App.handle].
  - destruct (loadMetrics_more (reloadArticles st).1) as (-> & _).
    by destruct (reloadArticles_more st) as (-> & _).
  - unfold App.handleEnrich, App.api.
    destruct (respond _ _ _) as [r|e]; [|done].
    match goal with |- context [App.reloadArticles respond ?s] => set (s0 := s) end.
    destruct (reloadArticles_more s0) as (Hs & _).
    destruct (reloadArticles s0) as [s1 [r1|e1]]; cbn [fst snd] in Hs |- *.
    + by destruct (loadMetrics_more s1) as (-> & _).
    + done.
  - unfold App.handleEnrichAsync, App.api.
    destruct (respond _ _ _) as [r|e]; [|done].
    unfold App.setPolling. cbn [App.polling App.mounted].
    case_bool_decide; [done|]. destruct (App.mounted st); [|done].
    unfold App.polling_effect. cbn zeta.
    match goal with |- context [App.loadMetrics respond ?s] => set (s0 := s) end.
    destruct (loadMetrics_more s0) as (Hs & _).
    by destruct (App.polling (loadMetrics s0)); unfold App.set_interval;
      cbn [App.selected]; rewrite Hs.
  - unfold App.elapse. cbn. apply ticks_more.
Qed.

(** X11.  Once an article is opened in the modal, the modal keeps that
    very article object whatever is refreshed or analysed afterwards:
    no handler but open and close writes [selected], so an Analyze from
    the modal does not bring the new annotations into it. *)
Theorem modal_keeps_article (a : Json number) (evs : list App.Event)
    (st : App.State) :
  App.selected
    (fold_left (λ st ev, handle ev st) evs (AppModal.openArticle a st))
  = Some a
  ∧ App.selected (AppModal.closeModal (AppModal.openArticle a st)) = None.
Proof.
  split; [|done].
  induction evs as [|ev evs IH] using rev_ind; [done|].
  rewrite fold_left_app. cbn [fold_left]. by rewrite selected_handle.
Qed.

(** X12.  Refresh and the periodic refresh are silent: neither ever
    shows an alert, whatever the back end answers; a metrics load that
    fails keeps the metrics on display and only logs to the console. *)
Theorem refresh_is_silent (dt : N) (st : App.State) :
  App.alerts (handle App.ClickRefresh st) = App.alerts st
  ∧ App.alerts (elapse dt st) = App.alerts st
  ∧ (∀ e, respond (length (App.log st)) Api.metrics AUndefined = Throw e →
          App.metrics (loadMetrics st) = App.metrics st
          ∧ App.alerts (loadMetrics st) = App.alerts st
          ∧ App.console (loadMetrics st) = App.console st ++ [e]).
Proof.
  split_and!.
  - cbn [App.handle].
    destruct (loadMetrics_frame respond (reloadArticles st).1) as (_ & -> & _).
    by destruct (reloadArticles_frame respond st) as (_ & -> & _).
  - unfold App.elapse. cbn. apply ticks_more.
  - intros e He. destruct (loadMetrics_more st) as (_ & _ & H).
    rewrite He in H. destruct H as [-> ->].
    by destruct (loadMetrics_frame respond st) as (_ & -> & _).
Qed.

(** *** Polling *)

Lemma polling_handle (ev : App.Event) (st : App.State) :
  App.polling st = true → App.polling (handle ev st) = true.
Proof.
  intros Hp. destruct ev as [|id| |dt]; cbn [App.handle].
  - destruct (loadMetrics_frame respond (reloadArticles st).1) as ((-> & _) & _).
    by destruct (reloadArticles_frame respond st) as ((-> & _) & _).
  - unfold App.handleEnrich, App.api.
    destruct (respond _ _ _) as [r|e]; [|done].
    match goal with |- context [App.reloadArticles respond ?s] => set (s0 := s) end.
    destruct (reloadArticles_frame respond s0) as ((Hs & _) & _).
    destruct (reloadArticles s0) as [s1 [r1|e1]]; cbn [fst snd] in Hs |- *.
    + destruct (loadMetrics_frame respond s1) as ((-> & _) & _).
      exact (eq_trans Hs Hp).
    + exact (eq_trans Hs Hp).
  - unfold App.handleEnrichAsync, App.api.
    destruct (respond _ _ _) as [r|e]; [|done].
    unfold App.setPolling. cbn [App.polling App.mounted].
    by rewrite Hp.
  - unfold App.elapse. cbn.
    destruct (App.interval st) as [due|] eqn:Hi.
    + by destruct (ticks_frame respond
                     (N.to_nat (App.due_count (App.clock st + dt) st)) st due Hi)
        as (-> & _).
    + unfold App.due_count. rewrite Hi. by change (N.to_nat 0) with 0.
Qed.

(** X13.  Polling is never switched off: once enabled it stays enabled
    through every later click and every stretch of time. *)
Theorem polling_never_stops (evs more : list App.Event) :
  App.polling (run evs) = true → App.polling (run (evs ++ more)) = true.
Proof.
  intros Hp. unfold App.run in *. rewrite fold_left_app.
  induction more as [|ev more IH] using rev_ind; [done|].
  rewrite fold_left_app. cbn [fold_left]. by apply polling_handle.
Qed.

Lemma quiet_handle (ev : App.Event) (st : App.State) :
  ev ≠ App.ClickRunEnrichAsync →
  App.polling st = false ∧ App.interval st = None →
  App.polling (handle ev st) = false ∧ App.interval (handle ev st) = None.
Proof.
  intros Hev [Hp Hi]. destruct ev as [|id| |dt]; cbn [App.handle]; [| |done|].
  - destruct (loadMetrics_frame respond (reloadArticles st).1)
      as ((-> & -> & _) & _).
    by destruct (reloadArticles_frame respond st) as ((-> & -> & _) & _).
  - unfold App.handleEnrich, App.api.
    destruct (respond _ _ _) as [r|e]; [|done].
    match goal with |- context [App.reloadArticles respond ?s] => set (s0 := s) end.
    destruct (reloadArticles_frame respond s0) as ((Hs & Hs' & _) & _).
    destruct (reloadArticles s0) as [s1 [r1|e1]]; cbn [fst snd] in Hs, Hs' |- *.
    + destruct (loadMetrics_frame respond s1) as ((-> & -> & _) & _).
      split; [exact (eq_trans Hs Hp)|exact (eq_trans Hs' Hi)].
    + split; [exact (eq_trans Hs Hp)|exact (eq_trans Hs' Hi)].
  - unfold App.elapse, App.due_count. rewrite Hi.
    by change (N.to_nat 0) with 0.
Qed.

(** X14.  Polling is off until an asynchronous enrichment is queued:
    while Run Enrich Async has not been clicked there is no interval,
    and the passing of time alone makes no request. *)
Theorem no_polling_by_default (evs : list App.Event) (dt : N) :
  Forall (λ ev, ev ≠ App.ClickRunEnrichAsync) evs →
  App.polling (run evs) = false
  ∧ App.interval (run evs) = None
  ∧ App.issued (run evs) (elapse dt (run evs)) = [].
Proof.
  intros Hevs.
  assert (App.polling (run evs) = false ∧ App.interval (run evs) = None) as [Hp Hi].
  { unfold App.run. induction evs as [|ev evs IH] using rev_ind.
    - cbn. unfold App.mount, App.polling_effect. cbn zeta.
      destruct (loadMetrics_frame respond (reloadArticles App.init).1)
        as ((Hp & _) & _).
      destruct (reloadArticles_frame respond App.init) as ((Hp' & _) & _).
      rewrite Hp, Hp'. change (App.polling App.init) with false. cbn iota.
      unfold App.set_interval. cbn [App.polling App.interval].
      split; [|done]. exact (eq_trans Hp Hp').
    - apply Forall_app in Hevs as [Hevs Hev].
      inversion_clear Hev as [|? ? Hev' _].
      rewrite fold_left_app. cbn [fold_left].
      apply quiet_handle; [exact Hev'|by apply IH]. }
  split_and!; try done.
  apply issued_app. rewrite elapse_log. unfold App.due_count. rewrite Hi.
  by change (N.to_nat 0) with 0.
Qed.

(** X15.  A queued asynchronous enrichment starts the interval once:
    the first success (on a mounted page that is not polling) reloads
    the metrics and schedules the interval one period ahead; a later
    success, while polling, makes its one request and leaves the
    interval where it was.  A rejection is alerted and changes neither
    polling nor the interval. *)
Theorem handleEnrichAsync_schedule (limit : Arg) (st : App.State) :
  App.mounted st = true →
  match respond (length (App.log st)) Api.enrichAsync (default_param (ANum 5) limit) with
  | Normal _ =>
      if App.polling st
      then App.interval (handleEnrichAsync limit st) = App.interval st
           ∧ App.issued st (handleEnrichAsync limit st)
             = [(Api.enrichAsync, default_param (ANum 5) limit)]
      else App.interval (handleEnrichAsync limit st)
           = Some (App.clock st + App.POLL_MS)%N
           ∧ App.polling (handleEnrichAsync limit st) = true
           ∧ App.issued st (handleEnrichAsync limit st)
             = [(Api.enrichAsync, default_param (ANum 5) limit);
                (Api.metrics, AUndefined)]
  | Throw e =>
      App.polling (handleEnrichAsync limit st) = App.polling st
      ∧ App.interval (handleEnrichAsync limit st) = App.interval st
      ∧ App.alerts (handleEnrichAsync limit st)
        = App.alerts st ++ ["Failed to queue enrichment: " +:+ message e]
      ∧ App.issued st (handleEnrichAsync limit st)
        = [(Api.enrichAsync, default_param (ANum 5) limit)]
  end.
Proof.
  intros Hm.
  pose proof (handleEnrichAsync_log respond limit st) as Hlog.
  unfold App.handleEnrichAsync, App.api in Hlog |- *.
  destruct (respond _ _ _) as [r|e].
  - unfold App.setPolling in Hlog |- *.
    cbn [App.polling App.mounted] in Hlog |- *. rewrite Hm in Hlog |- *.
    destruct (App.polling st) eqn:Hp.
    + rewrite bool_decide_eq_true_2 in Hlog |- * by done.
      split; [done|]. by apply issued_app.
    + rewrite bool_decide_eq_false_2 in Hlog |- * by done.
      match goal with |- context [App.polling_effect respond ?s] => set (s1 := s) in * end.
      destruct (polling_effect_on respond s1 eq_refl) as [Hint Hpol].
      split_and!; [exact Hint|exact Hpol|by apply issued_app].
  - split_and!; try done. by apply issued_app.
Qed.

(** X16.  After the unmount nothing is polled and nothing is written:
    the interval is cleared, time makes no request, a queued
    enrichment does not bring the interval back, and an article list
    that arrives does not replace the loaded one. *)
Theorem unmount_stops_polling (dt : N) (limit : Arg) (st : App.State) :
  App.interval (App.unmount st) = None
  ∧ App.issued (App.unmount st) (elapse dt (App.unmount st)) = []
  ∧ App.interval (handleEnrichAsync limit (App.unmount st)) = None
  ∧ UseFetch.data (App.articles (reloadArticles (App.unmount st)).1)
    = UseFetch.data (App.articles st).
Proof.
  split_and!.
  - done.
  - apply issued_app. rewrite elapse_log. by change (N.to_nat _) with 0.
  - unfold App.handleEnrichAsync, App.api.
    destruct (respond _ _ _) as [r|e]; [|done].
    unfold App.setPolling. cbn [App.polling App.mounted App.unmount
      App.set_interval App.set_mounted].
    by case_bool_decide.
  - unfold App.reloadArticles, App.api. cbn.
    by destruct (respond _ _ _).
Qed.

(** X21.  On the first render the dashboard asks for fifty articles
    and then for the metrics, and for nothing else; polling is off and
    nothing is alerted.  A rejected article request ends up in the
    hook's [error] only, which [App] does not read: the list stays
    empty and [loading] ends false. *)
Theorem mount_loads :
  App.log (App.mount respond)
  = [(Api.fetchArticles, ANum 50); (Api.metrics, AUndefined)]
  ∧ App.alerts (App.mount respond) = []
  ∧ App.polling (App.mount respond) = false
  ∧ App.interval (App.mount respond) = None
  ∧ UseFetch.loading (App.articles (App.mount respond)) = false
  ∧ match respond 0 Api.fetchArticles (ANum 50) with
    | Normal r =>
        UseFetch.data (App.articles (App.mount respond)) = Some r
        ∧ UseFetch.error (App.articles (App.mount respond)) = None
    | Throw e =>
        UseFetch.data (App.articles (App.mount respond)) = None
        ∧ UseFetch.error (App.articles (App.mount respond)) = Some e
    end.
Proof.
  unfold App.mount, App.polling_effect, App.reloadArticles, App.loadMetrics,
    App.api. cbn.
  destruct (respond 0 Api.fetchArticles (ANum 50)); cbn;
    destruct (respond 1 Api.metrics AUndefined); by cbn.
Qed.

End AppMore.

Lemma polling_never_stops_witness :
  App.polling
    (App.run Samples.calm
       ([App.ClickRunEnrichAsync] ++ [App.Elapse 60000; App.ClickRefresh]))
  = true.
Proof.
  exact (polling_never_stops Samples.calm [App.ClickRunEnrichAsync]
           [App.Elapse 60000; App.ClickRefresh] eq_refl).
Defined.

Lemma no_polling_by_default_witness :
  let evs := [App.ClickRefresh; App.ClickAnalyze (ANum 1); App.Elapse 100000] in
  App.polling (App.run Samples.down evs) = false
  ∧ App.interval (App.run Samples.down evs) = None
  ∧ App.issued (App.run Samples.down evs)
      (App.elapse Samples.down 3600000 (App.run Samples.down evs)) = [].
Proof.
  apply (no_polling_by_default Samples.down
           [App.ClickRefresh; App.ClickAnalyze (ANum 1); App.Elapse 100000] 3600000).
  repeat constructor; discriminate.
Defined.

Lemma handleEnrichAsync_schedule_witness :
  App.interval (App.handleEnrichAsync Samples.calm (ANum 10) (App.mount Samples.calm))
  = Some 20000%N
  ∧ App.polling (App.handleEnrichAsync Samples.calm (ANum 10) (App.mount Samples.calm))
    = true
  ∧ App.issued (App.mount Samples.calm)
      (App.handleEnrichAsync Samples.calm (ANum 10) (App.mount Samples.calm))
    = [(Api.enrichAsync, ANum 10); (Api.metrics, AUndefined)].
Proof.
  exact (handleEnrichAsync_schedule Samples.calm (ANum 10) (App.mount Samples.calm)
           eq_refl).
Defined.

(** ** The counting object, whatever the labels *)

Section TallyMore.

Variable toLowerCase : string → string.
Variable toUpperCase : string → string.

Lemma incremented_inc_of (m : gmap string Dashboard.Value) (k : string) :
  Dashboard.incremented m k = Tally.inc_of (m !! k) k.
Proof. reflexivity. Qed.

Lemma after_S (k : string) (n : nat) :
  Tally.after k (S n) = Tally.bump k (Tally.after k n).
Proof. reflexivity. Qed.

(** The property of a label depends on the number of articles filed
    under that label and on nothing else. *)
Lemma tally_after (key : Dashboard.Article → string)
    (articles : list Dashboard.Article) (label : string) :
  Dashboard.tally key articles !! label
  = Tally.after label (length (filter (λ a, key a = label) articles)).
Proof.
  induction articles as [|a l IH] using rev_ind; [done|].
  rewrite tally_snoc, filter_app, length_app, filter_cons, filter_nil.
  rewrite incremented_inc_of. unfold Dashboard.assign.
  destruct (decide (key a = label)) as [Heq|Hne].
  - rewrite Heq. cbn [length]. rewrite Nat.add_1_r, after_S.
    unfold Tally.bump.
    destruct (String.eqb label "__proto__"); [exact IH|].
    by rewrite lookup_insert_eq, IH.
  - cbn [length]. rewrite Nat.add_0_r.
    destruct (String.eqb (key a) "__proto__"); [exact IH|].
    by rewrite lookup_insert_ne.
Qed.

(** X17.  The label-to-value object that [biasCounts] and
    [sentimentCounts] build does not depend on the order of the
    articles. *)
Theorem tally_order_independent (l1 l2 : list Dashboard.Article) :
  l1 ≡ₚ l2 →
  Dashboard.biasMap toLowerCase l1 = Dashboard.biasMap toLowerCase l2
  ∧ Dashboard.sentimentMap toUpperCase l1 = Dashboard.sentimentMap toUpperCase l2.
Proof.
  intros Hp. split; apply map_eq; intros label;
    unfold Dashboard.biasMap, Dashboard.sentimentMap;
    rewrite !tally_after; by rewrite Hp.
Qed.

Lemma append_one_nonempty (s : string) : s +:+ "1" ≠ EmptyString.
Proof. by destruct s. Qed.

Lemma after_inherited (k : string) (n : nat) :
  Dashboard.inherited k ≠ None →
  Tally.after k n = None
  ∨ ∃ s, s ≠ EmptyString ∧ Tally.after k n = Some (Dashboard.VStr s).
Proof.
  intros Hk. induction n as [|n IH]; [by left|].
  rewrite after_S. unfold Tally.bump.
  destruct (String.eqb k "__proto__"); [exact IH|]. right.
  destruct IH as [->|(s & Hs & ->)]; cbn.
  - destruct (Dashboard.inherited k) as [src|]; [|done].
    eexists. split; [apply append_one_nonempty|done].
  - destruct s as [|c s]; [done|]. eexists. split; [|done]. done.
Qed.

Lemma after_proto (n : nat) : Tally.after "__proto__" n = None.
Proof. induction n as [|n IH]; [done|]. by rewrite after_S. Qed.

(** X18.  A label that is the name of a property every object literal
    inherits ("constructor", "toString", ...) never gets a count: its
    entry, if any, holds a string; and no entry is ever named
    "__proto__", so articles with that label are not counted at
    all. *)
Theorem inherited_labels_never_counted (articles : list Dashboard.Article)
    (e : Dashboard.Entry) :
  (e ∈ Dashboard.biasCounts toLowerCase articles
   ∨ e ∈ Dashboard.sentimentCounts toUpperCase articles) →
  Dashboard.name e ≠ "__proto__"
  ∧ (Dashboard.inherited (Dashboard.name e) ≠ None →
     ∃ s, Dashboard.value e = Dashboard.VStr s).
Proof.
  assert (∀ key, e ∈ Dashboard.entries (Dashboard.tally key articles) →
                 Dashboard.name e ≠ "__proto__"
                 ∧ (Dashboard.inherited (Dashboard.name e) ≠ None →
                    ∃ s, Dashboard.value e = Dashboard.VStr s)) as H.
  { intros key He. apply elem_of_entries in He. rewrite tally_after in He. split.
    - intros Hn. rewrite Hn, after_proto in He. done.
    - intros Hi.
      destruct (after_inherited (Dashboard.name e)
                  (length (filter (λ a, key a = Dashboard.name e) articles)) Hi)
        as [Hnone|(s & _ & Hs)]; [congruence|].
      exists s. congruence. }
  intros [He|He]; by apply H in He.
Qed.

Lemma total_perm (l1 l2 : list Dashboard.Entry) :
  l1 ≡ₚ l2 → Tally.total l1 = Tally.total l2.
Proof.
  unfold Tally.total.
  induction 1 as [|x l l' _ IH|x y l|l l' l'' _ IH1 _ IH2]; cbn.
  - done.
  - by rewrite IH.
  - lia.
  - congruence.
Qed.

Lemma total_insert_fresh (m : gmap string Dashboard.Value) (k : string)
    (v : Dashboard.Value) :
  m !! k = None →
  Tally.total (Dashboard.entries (<[k := v]> m))
  = (Tally.count_of (Dashboard.mkEntry k v) + Tally.total (Dashboard.entries m))%N.
Proof.
  intros Hk. unfold Dashboard.entries.
  rewrite (total_perm _ ((λ kv, Dashboard.mkEntry kv.1 kv.2) <$> ((k, v) :: map_to_list m))).
  - done.
  - apply fmap_Permutation. by apply map_to_list_insert.
Qed.

Lemma total_delete (m : gmap string Dashboard.Value) (k : string)
    (v : Dashboard.Value) :
  m !! k = Some v →
  Tally.total (Dashboard.entries m)
  = (Tally.count_of (Dashboard.mkEntry k v)
     + Tally.total (Dashboard.entries (delete k m)))%N.
Proof.
  intros Hk. unfold Dashboard.entries.
  rewrite (total_perm _ ((λ kv, Dashboard.mkEntry kv.1 kv.2)
                           <$> ((k, v) :: map_to_list (delete k m)))).
  - done.
  - apply fmap_Permutation. symmetry. by apply map_to_list_delete.
Qed.

Lemma total_tally (key : Dashboard.Article → string)
    (articles : list Dashboard.Article) :
  (∀ a, a ∈ articles → Dashboard.inherited (key a) = None) →
  Tally.total (Dashboard.entries (Dashboard.tally key articles))
  = N.of_nat (length articles).
Proof.
  induction articles as [|a l IH] using rev_ind; intros Hk; [done|].
  assert (∀ b, b ∈ l → Dashboard.inherited (key b) = None) as Hl
    by (intros b Hb; apply Hk, elem_of_app; by left).
  assert (Dashboard.inherited (key a) = None) as Ha
    by (apply Hk, elem_of_app; right; by apply list_elem_of_singleton).
  rewrite tally_snoc, length_app, Nat2N.inj_add, <- (IH Hl). cbn [length].
  unfold Dashboard.assign.
  destruct (String.eqb_spec (key a) "__proto__") as [He|_];
    [by apply inherited_proto in Ha|].
  unfold Dashboard.incremented.
  pose proof (tally_lookup key l Hl (key a)) as Hm.
  unfold Dashboard.count_value in Hm.
  destruct (decide (Dashboard.occurrences key (key a) l = 0%N)) as [_|_].
  - rewrite Hm, Ha. rewrite total_insert_fresh by done. cbn. lia.
  - rewrite Hm. rewrite <- insert_delete_eq.
    rewrite total_insert_fresh by apply lookup_delete_eq.
    rewrite (total_delete _ _ _ Hm). cbn. lia.
Qed.

(** X19.  When no label is the name of an inherited property, the
    counts of the bias distribution add up to the number of articles,
    and so do the counts of the sentiment distribution: every article
    is counted once in each. *)
Theorem counts_add_up (articles : list Dashboard.Article) :
  (∀ a, a ∈ articles → Dashboard.inherited (Dashboard.bias_key toLowerCase a) = None) →
  (∀ a, a ∈ articles → Dashboard.inherited (Dashboard.sentiment_key toUpperCase a) = None) →
  Tally.total (Dashboard.biasCounts toLowerCase articles) = N.of_nat (length articles)
  ∧ Tally.total (Dashboard.sentimentCounts toUpperCase articles)
    = N.of_nat (length articles).
Proof. intros Hb Hs. split; by apply total_tally. Qed.

End TallyMore.

(** ** The excerpt of a card *)

#[local] Arguments Utf16.width : simpl never.

Lemma units_high_surrogate (c1 c2 c3 c4 : Ascii.ascii) :
  Utf16.units (Utf16.high_surrogate c1 c2 c3 c4) = 1.
Proof. reflexivity. Qed.

(** The first [n] code units are [n] code units, or the whole text when
    it has fewer. *)
Lemma units_take (n : nat) (s : string) :
  Utf16.units (Utf16.take n s) = Nat.min n (Utf16.units s).
Proof.
  remember (String.length s) as len eqn:Hlen. revert n s Hlen.
  induction len as [len IH] using lt_wf_ind. intros n s ->.
  destruct s as [|c1 r1]; [by destruct n|].
  destruct n as [|n]; [done|].
  simpl. destruct (Utf16.width c1) eqn:Hw.
  - simpl. rewrite Hw, (IH (String.length r1)); [done|simpl; lia|done].
  - destruct r1 as [|c2 r2]; simpl; rewrite Hw; [lia|].
    rewrite (IH (String.length r2)); [done|simpl; lia|done].
  - destruct r1 as [|c2 [|c3 r3]]; simpl; rewrite Hw; [lia|lia|].
    rewrite (IH (String.length r3)); [done|simpl; lia|done].
  - destruct r1 as [|c2 [|c3 [|c4 r4]]]; simpl; rewrite ?Hw; [lia|lia|lia|].
    destruct n as [|n]; [by rewrite units_high_surrogate|].
    simpl. rewrite Hw, (IH (String.length r4)); [done|simpl; lia|done].
Qed.

Lemma take_all (n : nat) (s : string) :
  Utf16.units s ≤ n → Utf16.take n s = s.
Proof.
  remember (String.length s) as len eqn:Hlen. revert n s Hlen.
  induction len as [len IH] using lt_wf_ind. intros n s ->.
  destruct s as [|c1 r1]; [by destruct n|].
  simpl. destruct (Utf16.width c1) eqn:Hw.
  - destruct n as [|n]; [lia|]. intros H. simpl; rewrite ?Hw.
    rewrite (IH (String.length r1)); [done|simpl; lia|done|lia].
  - destruct r1 as [|c2 r2]; (destruct n as [|n]; [lia|]); intros H; simpl;
      rewrite ?Hw; [done|].
    rewrite (IH (String.length r2)); [done|simpl; lia|done|lia].
  - destruct r1 as [|c2 [|c3 r3]]; (destruct n as [|n]; [lia|]); intros H;
      simpl; rewrite ?Hw; [done|done|].
    rewrite (IH (String.length r3)); [done|simpl; lia|done|lia].
  - destruct r1 as [|c2 [|c3 [|c4 r4]]]; (destruct n as [|n]; [lia|]);
      intros H; simpl; rewrite ?Hw; [done|done|done|].
    destruct n as [|n]; [lia|].
    rewrite (IH (String.length r4)); [done|simpl; lia|done|lia].
Qed.

(** What is shown is the beginning of the text, byte for byte, unless
    the cut falls between the two code units of one character: then it
    is the beginning of the text up to that character, followed by the
    character's first code unit alone. *)
Lemma take_begins (n : nat) (s : string) :
  (∃ rest, s = Utf16.take n s +:+ rest)
  ∨ (∃ p c1 c2 c3 c4 rest,
       Utf16.take n s = p +:+ Utf16.high_surrogate c1 c2 c3 c4
       ∧ s = p +:+ String c1 (String c2 (String c3 (String c4 rest)))
       ∧ Utf16.width c1 = Utf16.Four).
Proof.
  remember (String.length s) as len eqn:Hlen. revert n s Hlen.
  induction len as [len IH] using lt_wf_ind. intros n s ->.
  destruct s as [|c1 r1]; [left; exists EmptyString; by destruct n|].
  destruct n as [|n]; [left; by eexists|].
  simpl. destruct (Utf16.width c1) eqn:Hw.
  - destruct (IH (String.length r1) ltac:(simpl; lia) n r1 eq_refl)
      as [[rest Hr]|(p & d1 & d2 & d3 & d4 & rest & Ht & Hs & Hd)].
    + left. exists rest. exact (f_equal (String c1) Hr).
    + right. exists (String c1 p), d1, d2, d3, d4, rest. split_and!.
      * exact (f_equal (String c1) Ht).
      * exact (f_equal (String c1) Hs).
      * done.
  - destruct r1 as [|c2 r2]; [left; by exists EmptyString|].
    destruct (IH (String.length r2) ltac:(simpl; lia) n r2 eq_refl)
      as [[rest Hr]|(p & d1 & d2 & d3 & d4 & rest & Ht & Hs & Hd)].
    + left. exists rest. exact (f_equal (λ r, String c1 (String c2 r)) Hr).
    + right. exists (String c1 (String c2 p)), d1, d2, d3, d4, rest. split_and!.
      * exact (f_equal (λ r, String c1 (String c2 r)) Ht).
      * exact (f_equal (λ r, String c1 (String c2 r)) Hs).
      * done.
  - destruct r1 as [|c2 [|c3 r3]];
      [left; by exists EmptyString|left; by exists EmptyString|].
    destruct (IH (String.length r3) ltac:(simpl; lia) n r3 eq_refl)
      as [[rest Hr]|(p & d1 & d2 & d3 & d4 & rest & Ht & Hs & Hd)].
    + left. exists rest.
      exact (f_equal (λ r, String c1 (String c2 (String c3 r))) Hr).
    + right. exists (String c1 (String c2 (String c3 p))), d1, d2, d3, d4, rest.
      split_and!.
      * exact (f_equal (λ r, String c1 (String c2 (String c3 r))) Ht).
      * exact (f_equal (λ r, String c1 (String c2 (String c3 r))) Hs).
      * done.
  - destruct r1 as [|c2 [|c3 [|c4 r4]]];
      [left; by exists EmptyString|left; by exists EmptyString
      |left; by exists EmptyString|].
    destruct n as [|n].
    + right. by exists EmptyString, c1, c2, c3, c4, r4.
    + destruct (IH (String.length r4) ltac:(simpl; lia) n r4 eq_refl)
        as [[rest Hr]|(p & d1 & d2 & d3 & d4 & rest & Ht & Hs & Hd)].
      * left. exists rest.
        exact (f_equal (λ r, String c1 (String c2 (String c3 (String c4 r)))) Hr).
      * right.
        exists (String c1 (String c2 (String c3 (String c4 p)))), d1, d2, d3, d4, rest.
        split_and!.
        -- exact (f_equal (λ r, String c1 (String c2 (String c3 (String c4 r)))) Ht).
        -- exact (f_equal (λ r, String c1 (String c2 (String c3 (String c4 r)))) Hs).
        -- done.
Qed.

(** X20.  A card without summary shows the beginning of a non-empty raw
    text, at most 200 UTF-16 code units of it, followed by an ellipsis;
    the ellipsis is appended even to a text short enough to be shown
    whole.  What is shown is a prefix of the raw text, except that a
    cut between the two code units of one character leaves that
    character's high surrogate alone at the end. *)
Theorem excerpt_of_raw_text (a : Dashboard.Article) (t : string) :
  Dashboard.summary a = None →
  Dashboard.raw_text a = Some t →
  t ≠ EmptyString →
  ∃ shown,
    Dashboard.excerpt (Dashboard.ArticleCard Utf16.slice a) = shown +:+ "…"
    ∧ Utf16.units shown = Nat.min 200 (Utf16.units t)
    ∧ (Utf16.units t ≤ 200 → shown = t)
    ∧ ((∃ rest, t = shown +:+ rest)
       ∨ (∃ p c1 c2 c3 c4 rest,
            shown = p +:+ Utf16.high_surrogate c1 c2 c3 c4
            ∧ t = p +:+ String c1 (String c2 (String c3 (String c4 rest)))
            ∧ Utf16.width c1 = Utf16.Four)).
Proof.
  intros Hs Hr Ht. exists (Utf16.take 200 t). split_and!.
  - cbn [Dashboard.ArticleCard Dashboard.excerpt]. unfold Dashboard.excerpt_of.
    rewrite Hs, Hr. destruct t as [|c r]; [done|].
    unfold Utf16.slice. by change (Utf16.drop 0 (String c r)) with (String c r).
  - apply units_take.
  - apply take_all.
  - apply take_begins.
Qed.

Lemma excerpt_of_raw_text_witness :
  ∃ shown,
    Dashboard.excerpt (Dashboard.ArticleCard Utf16.slice Cases.accented_only)
    = shown +:+ "…"
    ∧ Utf16.units shown = Nat.min 200 (Utf16.units Cases.accented)
    ∧ (Utf16.units Cases.accented ≤ 200 → shown = Cases.accented)
    ∧ ((∃ rest, Cases.accented = shown +:+ rest)
       ∨ (∃ p c1 c2 c3 c4 rest,
            shown = p +:+ Utf16.high_surrogate c1 c2 c3 c4
            ∧ Cases.accented
              = p +:+ String c1 (String c2 (String c3 (String c4 rest)))
            ∧ Utf16.width c1 = Utf16.Four)).
Proof.
  apply (excerpt_of_raw_text Cases.accented_only Cases.accented).
  - reflexivity.
  - reflexivity.
  - vm_compute. discriminate.
Defined.

(** The accented text has 150 code units in 300 bytes and is shown
    whole. *)
Example accented_shown_whole :
  Utf16.units Cases.accented = 150
  ∧ String.length Cases.accented = 300
  ∧ Dashboard.excerpt (Dashboard.ArticleCard Utf16.slice Cases.accented_only)
    = Cases.accented +:+ "…".
Proof. by vm_compute. Qed.

(** A short text is shown whole, and still gets the ellipsis. *)
Example short_text_gets_ellipsis :
  Dashboard.excerpt (Dashboard.ArticleCard Utf16.slice Cases.raw_only)
  = "Markets fell.…".
Proof. by vm_compute. Qed.

Lemma tally_order_independent_witness :
  Dashboard.biasMap Dashboard.asciiLowerCase
    [Samples.labelled (Some "Left") None; Samples.labelled (Some "right") None]
  = Dashboard.biasMap Dashboard.asciiLowerCase
      [Samples.labelled (Some "right") None; Samples.labelled (Some "Left") None]
  ∧ Dashboard.sentimentMap Dashboard.asciiUpperCase
      [Samples.labelled (Some "Left") None; Samples.labelled (Some "right") None]
    = Dashboard.sentimentMap Dashboard.asciiUpperCase
        [Samples.labelled (Some "right") None; Samples.labelled (Some "Left") None].
Proof.
  apply (tally_order_independent Dashboard.asciiLowerCase Dashboard.asciiUpperCase).
  apply perm_swap.
Defined.

Lemma inherited_labels_never_counted_witness :
  Dashboard.name
    (Dashboard.mkEntry "constructor"
       (Dashboard.VStr "function Object() { [native code] }1")) ≠ "__proto__"
  ∧ (Dashboard.inherited "constructor" ≠ None →
     ∃ s, Dashboard.VStr "function Object() { [native code] }1" = Dashboard.VStr s).
Proof.
  apply (inherited_labels_never_counted Dashboard.asciiLowerCase
           Dashboard.asciiUpperCase
           [Samples.labelled (Some "Constructor") None]
           (Dashboard.mkEntry "constructor"
              (Dashboard.VStr "function Object() { [native code] }1"))).
  left. apply elem_of_entries. by vm_compute.
Defined.

Lemma counts_add_up_witness :
  let articles :=
    [Samples.labelled (Some "Left") (Some "positive");
     Samples.labelled (Some "left") None;
     Samples.labelled None (Some "NEGATIVE")] in
  Tally.total (Dashboard.biasCounts Dashboard.asciiLowerCase articles) = 3%N
  ∧ Tally.total (Dashboard.sentimentCounts Dashboard.asciiUpperCase articles) = 3%N.
Proof.
  apply (counts_add_up Dashboard.asciiLowerCase Dashboard.asciiUpperCase
           [Samples.labelled (Some "Left") (Some "positive");
            Samples.labelled (Some "left") None;
            Samples.labelled None (Some "NEGATIVE")]).
  - intros a Ha.
    repeat (apply elem_of_cons in Ha as [->|Ha]; [by vm_compute|]).
    by apply elem_of_nil in Ha.
  - intros a _. apply sentiment_key_not_inherited.
Defined.
